(** * rrframework: the UFile storage client and the JSON configuration reader

    A shallow embedding of [storage/ufile.go] (request signing, single-shot
    PUT, multipart upload with concurrently launched part uploads) and of
    the dotted-key lookup [JsonConfig.Get] of package [rrconfig], with its
    typed getters.

    Conventions.
    - Go's [int] is the 64-bit signed integer; arithmetic is on [Z] with the
      wrap-around written out ([int_wrap]).  Division by zero and slice
      expressions out of range panic.
    - A Go byte slice is a view (backing array, offset, length, capacity);
      slicing a slice yields another view of the same array.
    - A Go string is a byte sequence: Rocq's [string].
    - [error] values are [option error], [None] being [nil].
    - The packages crypto/hmac, crypto/sha1, encoding/base64 and
      encoding/json are outside the repository: they are the operations of
      the classes [Crypto] and [JSONDecoder].
    - [net/http]: [http.NewRequest] is taken to return a request (the
      source discards its error); [client.Do] and [ioutil.ReadAll] are
      answered by the environment ([do_result]).
    - [Save] starts one goroutine per full part.  Its executions are the
      interleavings of the statements of the main function and of the
      goroutines, chosen by a schedule ([Save_step], [Save_exec]). *)

From Stdlib Require Import ZArith List String Ascii Bool Lia.
From Stdlib Require Import DecimalString DecimalZ DecimalPos.
From Stdlib.Floats Require Import SpecFloat.
From Stdlib.Strings Require Import Byte.
From stdpp Require Import base gmap strings list.

Set Warnings "-register-all".
Local Open Scope Z_scope.

(** ** Go basics *)

Definition LF : string := String "010"%char EmptyString.

(** [strconv.Itoa]. *)
Definition Itoa (n : Z) : string := NilZero.string_of_int (Z.to_int n).

(** [strings.Join]. *)
Definition Join (elems : list string) (sep : string) : string :=
  String.concat sep elems.

(** The range of [int]. *)
Definition int_min : Z := - 2 ^ 63.
Definition int_max : Z := 2 ^ 63 - 1.

Definition int_wrap (z : Z) : Z := (z + 2 ^ 63) mod 2 ^ 64 - 2 ^ 63.
Definition int_add (a b : Z) : Z := int_wrap (a + b).
Definition int_mul (a b : Z) : Z := int_wrap (a * b).

Inductive panic :=
| DivideByZero
| SliceBoundsOutOfRange (lo hi bound : Z).

(** Results of operations that can panic, and of functions returning
    [(T, error)]. *)
Inductive result (E A : Type) :=
| Ok (a : A)
| Err (e : E).
Arguments Ok {E A} a.
Arguments Err {E A} e.

(** [a / b] on [int]: truncated division, panics on a zero divisor. *)
Definition int_quo (a b : Z) : result panic Z :=
  if b =? 0 then Err DivideByZero else Ok (int_wrap (Z.quot a b)).

(** [[]byte]. *)
Record slice := {
  arr : Z -> byte;
  off : Z;
  len : Z;
  cap : Z
}.

Definition slice_wf (s : slice) : Prop :=
  0 <= len s /\ len s <= cap s /\ cap s <= int_max.


(** [s[lo:hi]]. *)
Definition slice_range (s : slice) (lo hi : Z) : result panic slice :=
  if (0 <=? lo) && (lo <=? hi) && (hi <=? cap s)
  then Ok {| arr := arr s; off := off s + lo; len := hi - lo; cap := cap s - lo |}
  else Err (SliceBoundsOutOfRange lo hi (cap s)).

(** [s[lo:]], that is [s[lo:len(s)]]. *)
Definition slice_from (s : slice) (lo : Z) : result panic slice :=
  if (0 <=? lo) && (lo <=? len s)
  then Ok {| arr := arr s; off := off s + lo; len := len s - lo; cap := cap s - lo |}
  else Err (SliceBoundsOutOfRange lo (len s) (len s)).

(** ** Errors and HTTP *)

Inductive error :=
| TransportError (msg : string)   (* returned by [client.Do] *)
| ReadError (msg : string)        (* returned by [ioutil.ReadAll] *)
| Errorf (msg : string)           (* built by [fmt.Errorf] *)
| UnmarshalError (msg : string).  (* returned by [json.Unmarshal] *)

Inductive body :=
| NoBody
| BytesReader (b : slice)
| StringsReader (s : string).

Record Request := {
  Method : string;
  URL : string;
  Header : list (string * string);
  Body : body
}.

(** [req.Header.Add]. *)
Definition Header_Add (k v : string) (req : Request) : Request :=
  {| Method := Method req; URL := URL req;
     Header := Header req ++ [(k, v)]; Body := Body req |}.

(** [Header.Get]: the first value added under the key, or the empty
    string. *)
Fixpoint Header_Get (h : list (string * string)) (k : string) : string :=
  match h with
  | [] => EmptyString
  | (k', v) :: h' => if String.eqb k k' then v else Header_Get h' k
  end.

Definition NewRequest (method url : string) (b : body) : Request :=
  {| Method := method; URL := url; Header := []; Body := b |}.

(** What [ioutil.ReadAll(resp.Body)] returns. *)
Inductive read_result :=
| ReadOK (b : string)
| ReadFail (msg : string).

Record Response := {
  StatusCode : Z;
  RespHeader_Get : string -> string;
  ReadAll : read_result
}.

(** What [client.Do(req)] returns. *)
Inductive do_result :=
| DoFail (msg : string)
| DoOK (resp : Response).

(** ** storage/ufile.go *)

Record UfileStorage := {
  PublicKey : string;
  PrivateKey : string;
  BucketName : string
}.

Definition EXPIRE : Z := 3600.
Definition SUFFIX : string := ".ufile.ucloud.cn".
Definition MAX_PUT_SIZE : Z := 52428800.

Definition CreateUfileStorage (pub pri bun : string) : UfileStorage :=
  {| PublicKey := pub; PrivateKey := pri; BucketName := bun |}.

Class Crypto := {
  (** [hmac.New(sha1.New, key)], [Write(data)], [Sum(nil)]. *)
  hmac_sha1 : list byte -> list byte -> list byte;
  (** [base64.StdEncoding.EncodeToString]. *)
  base64_EncodeToString : list byte -> string
}.

Definition signheader {C : Crypto} (s : UfileStorage)
    (method ctype bucket filename : string) : string :=
  let data := method +:+ LF in
  let data := data +:+ LF in
  let data := data +:+ (ctype +:+ LF) in
  let data := data +:+ LF in
  let data := data +:+ ((("/" +:+ bucket) +:+ "/") +:+ filename) in
  base64_EncodeToString
    (hmac_sha1 (list_byte_of_string (PrivateKey s)) (list_byte_of_string data)).

Record initResponse := {
  UploadId : string;
  BlkSize : Z;
  Bucket : string;
  Key : string
}.

Record uploadResponse := {
  PartNumber : Z
}.

(** The fields [Bucket] and [Key] of [finishResponse] are [FBucket] and
    [FKey] here. *)
Record finishResponse := {
  FBucket : string;
  FKey : string;
  FileSize : Z
}.

Class JSONDecoder := {
  (** [json.Unmarshal(body, &res)] at the three response types. *)
  Unmarshal_initResponse : string -> result error initResponse;
  Unmarshal_uploadResponse : string -> result error uploadResponse;
  Unmarshal_finishResponse : string -> result error finishResponse
}.

(** Each of the four request functions builds one request, has it
    answered by [client.Do], and turns the answer into its return value:
    [f_request] is the first half, [f_response] the second. *)

Definition initiateMultipartUpload_request {C : Crypto}
    (s : UfileStorage) (filename : string) : Request :=
  let sign := signheader s "POST" "application/octet-stream" (BucketName s) filename in
  let auth := ((("UCloud" +:+ " ") +:+ PublicKey s) +:+ ":") +:+ sign in
  let url := (((("http://" +:+ BucketName s) +:+ SUFFIX) +:+ "/") +:+ filename) +:+ "?uploads" in
  let req := NewRequest "POST" url NoBody in
  let req := Header_Add "Authorization" auth req in
  let req := Header_Add "Content-Type" "application/octet-stream" req in
  req.

Definition initiateMultipartUpload_response {D : JSONDecoder}
    (r : do_result) : result error initResponse :=
  match r with
  | DoFail msg => Err (TransportError msg)
  | DoOK resp =>
      match ReadAll resp with
      | ReadFail msg => Err (ReadError msg)
      | ReadOK body =>
          if negb (StatusCode resp =? 200)
          then Err (Errorf ("initiateMultipartUpload failed, " +:+ body))
          else Unmarshal_initResponse body
      end
  end.

Definition initiateMultipartUpload {C : Crypto} {D : JSONDecoder}
    (Do : Request -> do_result) (s : UfileStorage) (filename : string)
    : result error initResponse :=
  initiateMultipartUpload_response (Do (initiateMultipartUpload_request s filename)).

Definition uploadPart_request {C : Crypto}
    (s : UfileStorage) (content : slice) (info : initResponse) (partNum : Z)
    : Request :=
  let sign := signheader s "PUT" "application/octet-stream" (Bucket info) (Key info) in
  let auth := ((("UCloud" +:+ " ") +:+ PublicKey s) +:+ ":") +:+ sign in
  let url := ((((((("http://" +:+ Bucket info) +:+ SUFFIX) +:+ "/") +:+ Key info)
               +:+ "?uploadId=") +:+ UploadId info) +:+ "&partNumber=") +:+ Itoa partNum in
  let req := NewRequest "PUT" url (BytesReader content) in
  let req := Header_Add "Authorization" auth req in
  let req := Header_Add "Content-Type" "application/octet-stream" req in
  let req := Header_Add "Content-Length" (Itoa (BlkSize info)) req in
  req.

Definition uploadPart_response {D : JSONDecoder}
    (r : do_result) : result error (uploadResponse * string) :=
  match r with
  | DoFail msg => Err (TransportError msg)
  | DoOK resp =>
      match ReadAll resp with
      | ReadFail msg => Err (ReadError msg)
      | ReadOK body =>
          if negb (StatusCode resp =? 200)
          then Err (Errorf ("uploadPart failed, " +:+ body))
          else match Unmarshal_uploadResponse body with
               | Err err => Err err
               | Ok res => Ok (res, RespHeader_Get resp "ETag")
               end
      end
  end.

Definition uploadPart {C : Crypto} {D : JSONDecoder}
    (Do : Request -> do_result) (s : UfileStorage)
    (content : slice) (info : initResponse) (partNum : Z)
    : result error (uploadResponse * string) :=
  uploadPart_response (Do (uploadPart_request s content info partNum)).

Definition finishMultipartUpload_request {C : Crypto}
    (s : UfileStorage) (info : initResponse) (etags : string) : Request :=
  let sign := signheader s "POST" "text/plain" (Bucket info) (Key info) in
  let auth := ((("UCloud" +:+ " ") +:+ PublicKey s) +:+ ":") +:+ sign in
  let url := ((((((("http://" +:+ Bucket info) +:+ SUFFIX) +:+ "/") +:+ Key info)
               +:+ "?uploadId=") +:+ UploadId info) +:+ "&newKey=") +:+ Key info in
  let req := NewRequest "POST" url (StringsReader etags) in
  let req := Header_Add "Authorization" auth req in
  let req := Header_Add "Content-Length" (Itoa (Z.of_nat (String.length etags))) req in
  let req := Header_Add "Content-Type" "text/plain" req in
  req.

Definition finishMultipartUpload_response {D : JSONDecoder}
    (r : do_result) : result error finishResponse :=
  match r with
  | DoFail msg => Err (TransportError msg)
  | DoOK resp =>
      match ReadAll resp with
      | ReadFail msg => Err (ReadError msg)
      | ReadOK body =>
          if negb (StatusCode resp =? 200)
          then Err (Errorf ("finishMultipartUpload failed, " +:+ body))
          else Unmarshal_finishResponse body
      end
  end.

Definition finishMultipartUpload {C : Crypto} {D : JSONDecoder}
    (Do : Request -> do_result) (s : UfileStorage)
    (info : initResponse) (etags : string) : result error finishResponse :=
  finishMultipartUpload_response (Do (finishMultipartUpload_request s info etags)).

Definition put_request {C : Crypto}
    (s : UfileStorage) (content : slice) (filename : string) : Request :=
  let sign := signheader s "PUT" "application/octet-stream" (BucketName s) filename in
  let auth := ((("UCloud" +:+ " ") +:+ PublicKey s) +:+ ":") +:+ sign in
  let url := ((("http://" +:+ BucketName s) +:+ SUFFIX) +:+ "/") +:+ filename in
  let req := NewRequest "PUT" url (BytesReader content) in
  let req := Header_Add "Authorization" auth req in
  let req := Header_Add "Content-Type" "application/octet-stream" req in
  let req := Header_Add "Content-Length" (Itoa (len content)) req in
  req.

(** The body is read only when the status is not 200. *)
Definition put_response (r : do_result) : option error :=
  match r with
  | DoFail msg => Some (TransportError msg)
  | DoOK resp =>
      if negb (StatusCode resp =? 200)
      then match ReadAll resp with
           | ReadFail msg => Some (ReadError msg)
           | ReadOK body => Some (Errorf ("put file failed, " +:+ body))
           end
      else None
  end.

Definition put {C : Crypto}
    (Do : Request -> do_result) (s : UfileStorage)
    (content : slice) (filename : string) : option error :=
  put_response (Do (put_request s content filename)).

(** ** [Save]

    The local variables of [Save] are the fields of [state]; they are
    shared with the goroutines, whose closures capture them.  [calls] is
    the log of the calls made to the four request functions, in the order
    the requests are issued, each with the answer of the environment.

    The source synchronises the goroutines with [wg] and [errChan] only:
    the appends to [etags] and the reads of [i] are data races.  Here a
    statement is one atomic step and an execution is an interleaving of
    such steps.  This is all that the executions exhibited below need;
    the statements proved of every execution are about the requests
    issued, which depend on [content], [initRes], [num] and [i] and never
    on the contents of [etags]. *)

Inductive event :=
| CallPut (content : slice) (filename : string) (r : do_result)
| CallInitiate (filename : string) (r : do_result)
| CallUploadPart (part : slice) (info : initResponse) (partNum : Z) (r : do_result)
| CallFinish (info : initResponse) (etags : string) (r : do_result).

(** The statements of [go func(j int) { ... }(i)], each one step:
    the slice expression, the call of [uploadPart], then either the send
    on [errChan] or the append to [etags]; the deferred [wg.Done()] runs
    with the return. *)
Inductive goroutine :=
| G_slice (j : Z)
| G_uploadPart (j : Z) (part : slice)
| G_send (j : Z) (err : error)
| G_append (j : Z) (etag : string)
| G_done (j : Z).

Inductive main_pc :=
| M_entry
| M_for_cond
| M_for_post
| M_Wait
| M_remainder (part : slice)
| M_finish
| M_return (err : option error).

Record state := {
  pc : main_pc;
  initRes : option initResponse;
  num : Z;
  loop_i : Z;
  etags : list string;
  errChan : list error;
  wg : Z;
  goroutines : list goroutine;
  panicked : option panic;
  calls : list event
}.

Definition Save_init : state :=
  {| pc := M_entry; initRes := None; num := 0; loop_i := 0; etags := [];
     errChan := []; wg := 0; goroutines := []; panicked := None; calls := [] |}.

Definition set_pc (p : main_pc) (st : state) : state :=
  {| pc := p; initRes := initRes st; num := num st; loop_i := loop_i st;
     etags := etags st; errChan := errChan st; wg := wg st;
     goroutines := goroutines st; panicked := panicked st; calls := calls st |}.

Definition set_panic (p : panic) (st : state) : state :=
  {| pc := pc st; initRes := initRes st; num := num st; loop_i := loop_i st;
     etags := etags st; errChan := errChan st; wg := wg st;
     goroutines := goroutines st; panicked := Some p; calls := calls st |}.

Definition log (e : event) (st : state) : state :=
  {| pc := pc st; initRes := initRes st; num := num st; loop_i := loop_i st;
     etags := etags st; errChan := errChan st; wg := wg st;
     goroutines := goroutines st; panicked := panicked st;
     calls := calls st ++ [e] |}.

Definition set_goroutine (k : nat) (g : goroutine) (st : state) : state :=
  {| pc := pc st; initRes := initRes st; num := num st; loop_i := loop_i st;
     etags := etags st; errChan := errChan st; wg := wg st;
     goroutines := <[k := g]> (goroutines st); panicked := panicked st;
     calls := calls st |}.

(** [etags = append(etags, etag)]. *)
Definition append_etag (etag : string) (st : state) : state :=
  {| pc := pc st; initRes := initRes st; num := num st; loop_i := loop_i st;
     etags := etags st ++ [etag]; errChan := errChan st; wg := wg st;
     goroutines := goroutines st; panicked := panicked st; calls := calls st |}.

(** [errChan <- err]. *)
Definition send_err (err : error) (st : state) : state :=
  {| pc := pc st; initRes := initRes st; num := num st; loop_i := loop_i st;
     etags := etags st; errChan := errChan st ++ [err]; wg := wg st;
     goroutines := goroutines st; panicked := panicked st; calls := calls st |}.

(** [wg.Add(delta)]; [wg.Done()] is [wg.Add(-1)]. *)
Definition wg_Add (delta : Z) (st : state) : state :=
  {| pc := pc st; initRes := initRes st; num := num st; loop_i := loop_i st;
     etags := etags st; errChan := errChan st; wg := wg st + delta;
     goroutines := goroutines st; panicked := panicked st; calls := calls st |}.

(** [go func(j int) { ... }(i)]: the argument is evaluated by the [go]
    statement. *)
Definition spawn (st : state) : state :=
  {| pc := pc st; initRes := initRes st; num := num st; loop_i := loop_i st;
     etags := etags st; errChan := errChan st; wg := wg st;
     goroutines := goroutines st ++ [G_slice (loop_i st)];
     panicked := panicked st; calls := calls st |}.

(** [i++]. *)
Definition incr_i (st : state) : state :=
  {| pc := pc st; initRes := initRes st; num := num st;
     loop_i := int_add (loop_i st) 1;
     etags := etags st; errChan := errChan st; wg := wg st;
     goroutines := goroutines st; panicked := panicked st; calls := calls st |}.

(** The state after [initRes, err := s.initiateMultipartUpload(filename)]
    returned [info], [num := size / initRes.BlkSize] gave [n], and
    [etags], [errChan], [wg] and [i] were initialised. *)
Definition enter_multipart (info : initResponse) (n : Z) (st : state) : state :=
  {| pc := M_for_cond; initRes := Some info; num := n; loop_i := 0;
     etags := []; errChan := []; wg := 0;
     goroutines := goroutines st; panicked := panicked st; calls := calls st |}.

Definition set_initRes (info : initResponse) (st : state) : state :=
  {| pc := pc st; initRes := Some info; num := num st; loop_i := loop_i st;
     etags := etags st; errChan := errChan st; wg := wg st;
     goroutines := goroutines st; panicked := panicked st; calls := calls st |}.

(** The capacity of [errChan]: [make(chan error, 1)]. *)
Definition errChan_cap : nat := 1.

(** The closure passes [i], not its parameter [j], to [uploadPart].  Up to
    Go 1.21 the [i] of a [for] statement is one variable, shared by the
    loop and by every closure created in it; from Go 1.22 on (for modules
    that declare it) each iteration has its own. *)
Inductive loopvar :=
| SharedLoopVar
| PerIterationLoopVar.

Definition closure_i (lv : loopvar) (j : Z) (st : state) : Z :=
  match lv with
  | SharedLoopVar => loop_i st
  | PerIterationLoopVar => j
  end.

Definition Save_step_main {D : JSONDecoder} (content : slice) (filename : string)
    (r : do_result) (st : state) : option state :=
  match pc st with
  | M_entry =>
      let size := len content in
      if size >? MAX_PUT_SIZE then
        let st := log (CallInitiate filename r) st in
        match initiateMultipartUpload_response r with
        | Err err => Some (set_pc (M_return (Some err)) st)
        | Ok info =>
            match int_quo size (BlkSize info) with
            | Err p => Some (set_panic p (set_initRes info st))
            | Ok n => Some (enter_multipart info n st)
            end
        end
      else
        Some (set_pc (M_return (put_response r))
                     (log (CallPut content filename r) st))
  | M_for_cond =>
      if loop_i st <? num st
      then Some (set_pc M_for_post (spawn (wg_Add 1 st)))
      else Some (set_pc M_Wait st)
  | M_for_post => Some (set_pc M_for_cond (incr_i st))
  | M_Wait =>
      match initRes st with
      | None => None
      | Some info =>
          if wg st =? 0 then
            let size := len content in
            if int_mul (num st) (BlkSize info) <? size then
              match slice_from content (int_mul (num st) (BlkSize info)) with
              | Err p => Some (set_panic p st)
              | Ok part => Some (set_pc (M_remainder part) st)
              end
            else Some (set_pc M_finish st)
          else None
      end
  | M_remainder part =>
      match initRes st with
      | None => None
      | Some info =>
          let st := log (CallUploadPart part info (num st) r) st in
          match uploadPart_response r with
          | Err err => Some (set_pc (M_return (Some err)) st)
          | Ok (_, etag) => Some (set_pc M_finish (append_etag etag st))
          end
      end
  | M_finish =>
      match initRes st with
      | None => None
      | Some info =>
          let st := log (CallFinish info (Join (etags st) ",") r) st in
          match finishMultipartUpload_response r with
          | Err err => Some (set_pc (M_return (Some err)) st)
          | Ok _ => Some (set_pc (M_return None) st)
          end
      end
  | M_return _ => None
  end.

Definition Save_step_go {D : JSONDecoder} (lv : loopvar) (content : slice)
    (k : nat) (r : do_result) (st : state) : option state :=
  match goroutines st !! k, initRes st with
  | Some g, Some info =>
      match g with
      | G_slice j =>
          match slice_range content (int_mul j (BlkSize info))
                            (int_mul (int_add j 1) (BlkSize info)) with
          | Err p => Some (set_panic p st)
          | Ok part => Some (set_goroutine k (G_uploadPart j part) st)
          end
      | G_uploadPart j part =>
          let st := log (CallUploadPart part info (closure_i lv j st) r) st in
          match uploadPart_response r with
          | Err err => Some (set_goroutine k (G_send j err) st)
          | Ok (_, etag) => Some (set_goroutine k (G_append j etag) st)
          end
      | G_send j err =>
          if (length (errChan st) <? errChan_cap)%nat
          then Some (set_goroutine k (G_done j) (wg_Add (-1) (send_err err st)))
          else None
      | G_append j etag =>
          Some (set_goroutine k (G_done j) (wg_Add (-1) (append_etag etag st)))
      | G_done _ => None
      end
  | _, _ => None
  end.

(** The threads of an execution: the caller's, running [Save], and the
    goroutines, numbered in the order the loop starts them. *)
Inductive tid :=
| Main
| Go (k : nat).

(** One step of thread [t]; [r] answers the request when the step issues
    one.  [None]: the thread cannot move (it has returned, it is blocked,
    or the program has panicked). *)
Definition Save_step {D : JSONDecoder} (lv : loopvar) (content : slice)
    (filename : string) (t : tid) (r : do_result) (st : state) : option state :=
  match panicked st with
  | Some _ => None
  | None =>
      match t with
      | Main => Save_step_main content filename r st
      | Go k => Save_step_go lv content k r st
      end
  end.

Fixpoint Save_exec {D : JSONDecoder} (lv : loopvar) (content : slice)
    (filename : string) (sched : list (tid * do_result)) (st : state)
    : option state :=
  match sched with
  | [] => Some st
  | (t, r) :: sched' =>
      match Save_step lv content filename t r st with
      | Some st' => Save_exec lv content filename sched' st'
      | None => None
      end
  end.

(** The executions of [Save(content, filename)]. *)
Definition Save_run {D : JSONDecoder} (lv : loopvar) (content : slice)
    (filename : string) (sched : list (tid * do_result)) : option state :=
  Save_exec lv content filename sched Save_init.

(** What [Save(content, filename)] returns, when it has returned at the
    end of the schedule. *)
Definition Save {D : JSONDecoder} (lv : loopvar) (content : slice)
    (filename : string) (sched : list (tid * do_result))
    : option (option error) :=
  match Save_run lv content filename sched with
  | Some st =>
      match pc st with
      | M_return err => Some err
      | _ => None
      end
  | None => None
  end.

(** No thread can move. *)
Definition stuck {D : JSONDecoder} (lv : loopvar) (content : slice)
    (filename : string) (st : state) : Prop :=
  forall t r, Save_step lv content filename t r st = None.

(** ** rrconfig: [JsonConfig] *)

Module rrconfig.

(** The dynamic values [json.Unmarshal] stores in an [interface{}]. *)
Inductive value :=
| Nil
| Bool (b : bool)
| Float64 (f : spec_float)
| Str (s : string)
| Slice (l : list value)
| Map (o : gmap string value).

Record JsonConfig := {
  m : gmap string value;
  rb : list byte
}.

(** [strings.Split(s, sep)] for a separator of one byte. *)
Fixpoint Split_from (sep : ascii) (s : string) : string * list string :=
  match s with
  | EmptyString => (EmptyString, [])
  | String c s' =>
      let (piece, pieces) := Split_from sep s' in
      if Ascii.eqb c sep then (EmptyString, piece :: pieces)
      else (String c piece, pieces)
  end.

Definition Split (s : string) (sep : ascii) : list string :=
  let (piece, pieces) := Split_from sep s in piece :: pieces.

(** The loop of [Get], from index [i] on: [nodes] are the components
    [nodes[i:]] and [cur] is the local [m]. *)
Fixpoint Get_loop (key : string) (cur : gmap string value)
    (nodes : list string) : result error value :=
  match nodes with
  | [] => Ok (Map cur)
  | node :: nodes' =>
      match cur !! node with
      | Some v =>
          match v with
          | Map vv => Get_loop key vv nodes'
          | _ => Ok v
          end
      | None => Err (Errorf ("no value for key " +:+ key))
      end
  end.

Definition Get (s : JsonConfig) (key : string) : result error value :=
  Get_loop key (m s) (Split key "."%char).

(** The object reached from [cur] by following [nodes], every one of
    which has to name an object. *)
Fixpoint descend (cur : gmap string value) (nodes : list string)
    : option (gmap string value) :=
  match nodes with
  | [] => Some cur
  | node :: nodes' =>
      match cur !! node with
      | Some (Map vv) => descend vv nodes'
      | _ => None
      end
  end.

Definition is_Map (v : value) : bool :=
  match v with
  | Map _ => true
  | _ => false
  end.

(** The typed getters return a value together with an error; on an error
    the value is the one the source returns with it ([empty], the empty
    string, zero, [nil]).  A [nil] slice and an empty slice are both the
    empty list. *)

(** The loop of [GetStringSlice]: [i] is the index, [sf] what is left of
    the slice and [ss] the array of strings being filled. *)
Fixpoint GetStringSlice_loop (key : string) (i : nat) (sf : list value)
    (ss : list string) : list string * option error :=
  match sf with
  | [] => (ss, None)
  | v :: sf' =>
      match v with
      | Str vv => GetStringSlice_loop key (S i) sf' (<[i := vv]> ss)
      | _ =>
          ([], Some (Errorf (key +:+ "[" +:+ Itoa (Z.of_nat i)
                             +:+ "] is not a string")))
      end
  end.

Definition GetStringSlice (s : JsonConfig) (key : string)
    : list string * option error :=
  match Get s key with
  | Err err => ([], Some err)
  | Ok f =>
      match f with
      | Slice sf =>
          GetStringSlice_loop key 0 sf (replicate (length sf) EmptyString)
      | _ => ([], Some (Errorf ("value for key " +:+ key +:+ " is not slice")))
      end
  end.




Definition GetInterfaceSlice (s : JsonConfig) (key : string)
    : list value * option error :=
  match Get s key with
  | Err err => ([], Some err)
  | Ok f =>
      match f with
      | Slice sf => (sf, None)
      | _ => ([], Some (Errorf ("value for key " +:+ key
                                +:+ " is not []interface{}")))
      end
  end.

(** The byte [c] occurs in [s]. *)
Fixpoint has_byte (c : ascii) (s : string) : bool :=
  match s with
  | EmptyString => false
  | String c' s' => Ascii.eqb c' c || has_byte c s'
  end.

End rrconfig.

(** ** The parts of a payload, and what an execution has uploaded *)

(** [content[j*B : (j+1)*B]]. *)
Definition full_part (content : slice) (B j : Z) : slice :=
  {| arr := arr content; off := off content + j * B; len := B;
     cap := cap content - j * B |}.

(** [content[q*B:]]. *)
Definition remainder_part (content : slice) (B q : Z) : slice :=
  {| arr := arr content; off := off content + q * B;
     len := len content - q * B; cap := cap content - q * B |}.

Definition goroutine_j (g : goroutine) : Z :=
  match g with
  | G_slice j | G_uploadPart j _ | G_send j _ | G_append j _ | G_done j => j
  end.

(** The goroutine has issued its part upload. *)
Definition goroutine_called (g : goroutine) : bool :=
  match g with
  | G_send _ _ | G_append _ _ | G_done _ => true
  | _ => false
  end.

Definition goroutine_done (g : goroutine) : bool :=
  match g with
  | G_done _ => true
  | _ => false
  end.

(** The part uploads of a log: the bytes sent and the part number. *)
Definition part_call (e : event) : option (slice * Z) :=
  match e with
  | CallUploadPart part _ partNum _ => Some (part, partNum)
  | _ => None
  end.

Definition part_calls (l : list event) : list (slice * Z) := omap part_call l.

(** The tag strings the Finalizer was called with. *)
Definition finish_call (e : event) : option string :=
  match e with
  | CallFinish _ etags _ => Some etags
  | _ => None
  end.

Definition finish_calls (l : list event) : list string := omap finish_call l.

(** The part uploads that were acknowledged: part number and the
    integrity tag of the answer. *)
Definition acknowledged {D : JSONDecoder} (e : event) : option (Z * string) :=
  match e with
  | CallUploadPart _ _ partNum r =>
      match uploadPart_response r with
      | Ok (_, etag) => Some (partNum, etag)
      | Err _ => None
      end
  | _ => None
  end.

Definition acknowledged_parts {D : JSONDecoder} (l : list event) : list (Z * string) :=
  omap acknowledged l.

(** The part uploads that returned an error. *)
Definition failed {D : JSONDecoder} (e : event) : option (Z * error) :=
  match e with
  | CallUploadPart _ _ partNum r =>
      match uploadPart_response r with
      | Ok _ => None
      | Err err => Some (partNum, err)
      end
  | _ => None
  end.

Definition failed_parts {D : JSONDecoder} (l : list event) : list (Z * error) :=
  omap failed l.


(** [Save] is past its part uploads: it is about to finalize, or it has
    returned from the multipart branch. *)
Definition past_parts (st : state) : Prop :=
  match pc st with
  | M_finish | M_return _ => True
  | _ => False
  end.

(** ** Invariant of the multipart branch, for a positive block size *)

Definition goroutine_ok (content : slice) (info : initResponse)
    (k : nat) (g : goroutine) : Prop :=
  goroutine_j g = Z.of_nat k /\
  match g with
  | G_uploadPart j part => part = full_part content (BlkSize info) j
  | _ => True
  end.

Definition loop_ok (content : slice) (info : initResponse) (st : state) : Prop :=
  let started := Z.of_nat (length (goroutines st)) in
  match pc st with
  | M_entry => False
  | M_for_cond => loop_i st = started /\ loop_i st <= num st
  | M_for_post => loop_i st + 1 = started /\ loop_i st < num st
  | M_Wait => loop_i st = num st /\ started = num st
  | M_remainder part =>
      loop_i st = num st /\ started = num st /\ wg st = 0 /\
      part = remainder_part content (BlkSize info) (num st) /\
      num st * BlkSize info < len content
  | M_finish | M_return _ =>
      loop_i st = num st /\ started = num st /\ wg st = 0
  end.

Definition event_ok (lv : loopvar) (content : slice) (info : initResponse)
    (e : event) : Prop :=
  let B := BlkSize info in
  let q := len content / B in
  match e with
  | CallPut _ _ _ => False
  | CallInitiate _ _ => True
  | CallUploadPart part info' partNum _ =>
      info' = info /\
      ((exists j, 0 <= j < q /\ part = full_part content B j /\
                  j <= partNum <= q /\
                  (lv = PerIterationLoopVar -> partNum = j)) \/
       (part = remainder_part content B q /\ partNum = q /\ q * B < len content))
  | CallFinish info' _ _ => info' = info
  end.

Definition remainder_calls (content : slice) (info : initResponse)
    : list (slice * Z) :=
  let B := BlkSize info in
  let q := len content / B in
  if q * B <? len content then [(remainder_part content B q, q)] else [].

Definition parts_ok (content : slice) (info : initResponse) (st : state) : Prop :=
  exists fulls rem,
    part_calls (calls st) = fulls ++ rem /\
    fulls.*1 ≡ₚ
      (fun g => full_part content (BlkSize info) (goroutine_j g)) <$>
        filter (fun g => goroutine_called g = true) (goroutines st) /\
    rem = match pc st with
          | M_finish | M_return _ => remainder_calls content info
          | _ => []
          end.

Record Inv (lv : loopvar) (content : slice) (info : initResponse)
    (st : state) : Prop := {
  inv_initRes : initRes st = Some info;
  inv_panicked : panicked st = None;
  inv_num : num st = len content / BlkSize info;
  inv_goroutines :
    forall k g, goroutines st !! k = Some g -> goroutine_ok content info k g;
  inv_loop : loop_ok content info st;
  inv_wg :
    wg st = Z.of_nat (length (filter (fun g => goroutine_done g = false)
                                     (goroutines st)));
  inv_calls : Forall (event_ok lv content info) (calls st);
  inv_parts : parts_ok content info st
}.

(** ** Example data

    A payload of 50 MiB + 1 byte, a session with a block size of 25 MiB
    (two full parts and a remainder of one byte) and answers of the
    storage service.  [example_decoder] knows what [json.Unmarshal] makes
    of the documents used below and rejects every other one;
    [example_crypto] stands in for the hash and the encoding, on which no
    statement below depends. *)

Definition dquote : string := String "034"%char EmptyString.

(** The JSON object with the members [UploadId], [BlkSize], [Bucket] and
    [Key] of [example_session]. *)
Definition example_init_doc : string :=
  "{" +:+ dquote +:+ "UploadId" +:+ dquote +:+ ":" +:+ dquote +:+ "u-1" +:+ dquote +:+ ","
  +:+ dquote +:+ "BlkSize" +:+ dquote +:+ ":26214400,"
  +:+ dquote +:+ "Bucket" +:+ dquote +:+ ":" +:+ dquote +:+ "demo" +:+ dquote +:+ ","
  +:+ dquote +:+ "Key" +:+ dquote +:+ ":" +:+ dquote +:+ "big.bin" +:+ dquote +:+ "}".

Definition example_session : initResponse :=
  {| UploadId := "u-1"; BlkSize := 26214400; Bucket := "demo"; Key := "big.bin" |}.

(** What the empty object decodes to: every field keeps its zero value. *)
Definition zero_session : initResponse :=
  {| UploadId := EmptyString; BlkSize := 0; Bucket := EmptyString;
     Key := EmptyString |}.

Definition example_decoder : JSONDecoder :=
  {| Unmarshal_initResponse doc :=
       if String.eqb doc example_init_doc then Ok example_session
       else if String.eqb doc "{}" then Ok zero_session
       else Err (UnmarshalError "unexpected document");
     Unmarshal_uploadResponse doc :=
       if String.eqb doc "{}" then Ok {| PartNumber := 0 |}
       else Err (UnmarshalError "unexpected document");
     Unmarshal_finishResponse doc :=
       if String.eqb doc "{}"
       then Ok {| FBucket := EmptyString; FKey := EmptyString; FileSize := 0 |}
       else Err (UnmarshalError "unexpected document") |}.

Definition example_crypto : Crypto :=
  {| hmac_sha1 key data := key ++ data;
     base64_EncodeToString := string_of_list_byte |}.

Definition example_storage : UfileStorage :=
  CreateUfileStorage "public" "private" "demo".

Definition example_content : slice :=
  {| arr := fun _ => "*"%byte; off := 0; len := 52428801; cap := 52428801 |}.


(** An answer with the given status, [ETag] header and body. *)
Definition answer (status : Z) (etag body : string) : do_result :=
  DoOK {| StatusCode := status;
          RespHeader_Get := fun k => if String.eqb k "ETag" then etag else EmptyString;
          ReadAll := ReadOK body |}.

(** For the steps that issue no request. *)
Definition no_request : do_result := DoFail EmptyString.

(** Each goroutine issues its upload while [i] still holds its own index;
    the second one appends its tag before the first one does. *)
Definition sched_second_completes_first : list (tid * do_result) :=
  [ (Main, answer 200 EmptyString example_init_doc);
    (Main, no_request);             (* i < num: go func(0) *)
    (Go 0, no_request);             (* content[0:B] *)
    (Go 0, answer 200 "e0" "{}");   (* uploadPart(part, initRes, i), i = 0 *)
    (Main, no_request);             (* i++ *)
    (Main, no_request);             (* i < num: go func(1) *)
    (Go 1, no_request);             (* content[B:2B] *)
    (Go 1, answer 200 "e1" "{}");   (* uploadPart(part, initRes, i), i = 1 *)
    (Go 1, no_request);             (* etags = append(etags, "e1") *)
    (Go 0, no_request);             (* etags = append(etags, "e0") *)
    (Main, no_request);             (* i++ *)
    (Main, no_request);             (* i < num fails *)
    (Main, no_request);             (* wg.Wait(); content[2B:] *)
    (Main, answer 200 "e2" "{}");   (* uploadPart(part, initRes, 2) *)
    (Main, answer 200 EmptyString "{}") ].

(** The loop has started both goroutines and finished before either of
    them runs.  [first] and [second] answer their uploads. *)
Definition sched_loop_first (first second : do_result) : list (tid * do_result) :=
  [ (Main, answer 200 EmptyString example_init_doc);
    (Main, no_request);             (* i < num: go func(0) *)
    (Main, no_request);             (* i++ *)
    (Main, no_request);             (* i < num: go func(1) *)
    (Main, no_request);             (* i++ *)
    (Main, no_request);             (* i < num fails *)
    (Go 0, no_request);             (* content[0:B] *)
    (Go 0, first);                  (* uploadPart(part, initRes, i) *)
    (Go 0, no_request);             (* append, or errChan <- err *)
    (Go 1, no_request);             (* content[B:2B] *)
    (Go 1, second) ].               (* uploadPart(part, initRes, i) *)

(** What follows when the second goroutine and the rest of [Save] run to
    the end. *)
Definition sched_to_the_end : list (tid * do_result) :=
  [ (Go 1, no_request);             (* append, or errChan <- err *)
    (Main, no_request);             (* wg.Wait(); content[2B:] *)
    (Main, answer 200 "e2" "{}");   (* uploadPart(part, initRes, 2) *)
    (Main, answer 200 EmptyString "{}") ].

Definition rejected : do_result := answer 500 EmptyString "part rejected".

(** The configuration [{"a": {"b": "text"}}]. *)
Definition example_config : rrconfig.JsonConfig :=
  {| rrconfig.m := {[ "a" := rrconfig.Map {[ "b" := rrconfig.Str "text" ]} ]};
     rrconfig.rb := [] |}.

(** The calls of a session: part uploads and the finalization, all for
    [info]. *)
Definition session_call (info : option initResponse) (e : event) : Prop :=
  match e with
  | CallUploadPart _ i _ _ | CallFinish i _ _ => info = Some i
  | _ => False
  end.

(** ** Blocking and termination *)

(** The goroutine is at [errChan <- err]. *)
Definition goroutine_sending (g : goroutine) : bool :=
  match g with
  | G_send _ _ => true
  | _ => false
  end.

(** While the goroutines run, every failed part upload is an error in the
    buffer of [errChan] or in the hands of a goroutine about to send it. *)
Definition errors_ok {D : JSONDecoder} (st : state) : Prop :=
  match pc st with
  | M_for_cond | M_for_post | M_Wait =>
      length (failed_parts (calls st))
      = (length (errChan st)
         + length (filter (fun g => goroutine_sending g = true) (goroutines st)))%nat
  | _ => True
  end.

(** The number of steps a goroutine has left. *)
Definition goroutine_steps (g : goroutine) : nat :=
  match g with
  | G_slice _ => 3
  | G_uploadPart _ _ => 2
  | G_send _ _ | G_append _ _ => 1
  | G_done _ => 0
  end.

(** A bound on the number of steps left to [Save] and to the goroutines
    it has yet to start. *)
Definition main_steps (st : state) : nat :=
  match pc st with
  | M_entry => 0
  | M_for_cond => 5 * Z.to_nat (num st - loop_i st) + 4
  | M_for_post => 5 * Z.to_nat (num st - loop_i st)
  | M_Wait => 3
  | M_remainder _ => 2
  | M_finish => 1
  | M_return _ => 0
  end.

Definition steps_left (st : state) : nat :=
  main_steps st + sum_list_with goroutine_steps (goroutines st).

(** The states of the multipart branch when the block size is negative:
    [num] is not positive and no goroutine has been started. *)
Definition no_goroutines (content : slice) (info : initResponse)
    (st : state) : Prop :=
  initRes st = Some info /\ goroutines st = [] /\ loop_i st = 0 /\
  num st = Z.quot (len content) (BlkSize info) /\ panicked st = None /\
  match pc st with
  | M_entry | M_for_post => False
  | _ => True
  end.

(** ** What a call returned, and the state of [Save] whatever the block size *)

(** The error a logged call returned ([None]: it returned none). *)
Definition event_error {D : JSONDecoder} (e : event) : option error :=
  match e with
  | CallPut _ _ r => put_response r
  | CallInitiate _ r =>
      match initiateMultipartUpload_response r with
      | Ok _ => None
      | Err err => Some err
      end
  | CallUploadPart _ _ _ r =>
      match uploadPart_response r with
      | Ok _ => None
      | Err err => Some err
      end
  | CallFinish _ _ r =>
      match finishMultipartUpload_response r with
      | Ok _ => None
      | Err err => Some err
      end
  end.

(** The calls after which [Save] can return [nil]. *)
Definition is_final_call (e : event) : bool :=
  match e with
  | CallPut _ _ _ | CallFinish _ _ _ => true
  | _ => false
  end.

(** [Save] is in its loop or at [wg.Wait()]. *)
Definition in_loop_or_Wait (st : state) : Prop :=
  match pc st with
  | M_for_cond | M_for_post | M_Wait => True
  | _ => False
  end.

(** What holds of every state of every execution: [wg] counts the
    goroutines that have not returned; past [wg.Wait()] there is none;
    [errChan] holds at most one error; [finishMultipartUpload] has not
    been called before [Save] returns, and when [Save] returns, what it
    returns is what its last call returned. *)
Record Save_inv {D : JSONDecoder} (st : state) : Prop := {
  si_wg :
    wg st = Z.of_nat (length (filter (fun g => goroutine_done g = false)
                                     (goroutines st)));
  si_entry : pc st = M_entry -> goroutines st = [];
  si_joined :
    match pc st with
    | M_remainder _ | M_finish | M_return _ => wg st = 0
    | _ => True
    end;
  si_errChan : (length (errChan st) <= errChan_cap)%nat;
  si_return :
    match pc st with
    | M_return err =>
        exists es e,
          calls st = es ++ [e] /\ finish_calls es = [] /\
          event_error e = err /\ (err = None -> is_final_call e = true)
    | _ => finish_calls (calls st) = []
    end
}.

(** The part [part] holds the byte of [content] at index [k]. *)
Definition part_holds (content part : slice) (k : Z) : Prop :=
  off part <= off content + k < off part + len part.

(** ** What a request is signed for *)


(** Both goroutines have issued their uploads, answered by [first] and
    [second], before either of them goes on. *)
Definition sched_uploads_first (first second : do_result)
    : list (tid * do_result) :=
  [ (Main, answer 200 EmptyString example_init_doc);
    (Main, no_request);             (* i < num: go func(0) *)
    (Main, no_request);             (* i++ *)
    (Main, no_request);             (* i < num: go func(1) *)
    (Main, no_request);             (* i++ *)
    (Main, no_request);             (* i < num fails *)
    (Go 0, no_request);             (* content[0:B] *)
    (Go 0, first);                  (* uploadPart(part, initRes, i) *)
    (Go 1, no_request);             (* content[B:2B] *)
    (Go 1, second) ].               (* uploadPart(part, initRes, i) *)

(** The configuration [{"a": {"b": "text"}, "a.b": "dotted"}]: the
    second name holds a dot. *)
Definition example_dotted_config : rrconfig.JsonConfig :=
  {| rrconfig.m := <[ "a.b" := rrconfig.Str "dotted" ]> (rrconfig.m example_config);
     rrconfig.rb := [] |}.

(** The case analysis of the answer of [client.Do]. *)
Ltac answer_cases :=
  repeat split; intros;
  repeat match goal with
         | H : exists _, _ |- _ => destruct H
         | H : _ /\ _ |- _ => destruct H
         end;
  simplify_eq; try congruence; eauto 10;
  try (match goal with H : StatusCode _ = 200 |- _ => by rewrite H end).

(** A session with a negative block size, the document that decodes to
    it, and an execution of [Save] with it. *)
Definition negative_session : initResponse :=
  {| UploadId := "u-2"; BlkSize := -26214400; Bucket := "demo";
     Key := "big.bin" |}.

Definition negative_init_doc : string :=
  "{" +:+ dquote +:+ "UploadId" +:+ dquote +:+ ":" +:+ dquote +:+ "u-2" +:+ dquote +:+ ","
  +:+ dquote +:+ "BlkSize" +:+ dquote +:+ ":-26214400,"
  +:+ dquote +:+ "Bucket" +:+ dquote +:+ ":" +:+ dquote +:+ "demo" +:+ dquote +:+ ","
  +:+ dquote +:+ "Key" +:+ dquote +:+ ":" +:+ dquote +:+ "big.bin" +:+ dquote +:+ "}".

Definition negative_decoder : JSONDecoder :=
  {| Unmarshal_initResponse doc :=
       if String.eqb doc negative_init_doc then Ok negative_session
       else Unmarshal_initResponse (JSONDecoder := example_decoder) doc;
     Unmarshal_uploadResponse :=
       Unmarshal_uploadResponse (JSONDecoder := example_decoder);
     Unmarshal_finishResponse :=
       Unmarshal_finishResponse (JSONDecoder := example_decoder) |}.

Definition sched_negative : list (tid * do_result) :=
  [ (Main, answer 200 EmptyString negative_init_doc);
    (Main, no_request);             (* i < num fails: num = -2 *)
    (Main, no_request);             (* wg.Wait(); content[num*BlkSize:] *)
    (Main, answer 200 "e" "{}");    (* uploadPart(part, initRes, num) *)
    (Main, answer 200 EmptyString "{}") ].

(** The part uploads made so far when the block size is negative. *)
Definition neg_parts_ok (content : slice) (info : initResponse)
    (st : state) : Prop :=
  match pc st with
  | M_remainder part =>
      part_calls (calls st) = [] /\
      part = remainder_part content (BlkSize info)
                            (Z.quot (len content) (BlkSize info))
  | M_finish | M_return _ =>
      part_calls (calls st) = [] \/
      part_calls (calls st)
      = [(remainder_part content (BlkSize info)
                         (Z.quot (len content) (BlkSize info)),
          Z.quot (len content) (BlkSize info))]
  | _ => part_calls (calls st) = []
  end.

(** * Properties *)

(** ** The request functions in the steps of [Save]

    A step of [Save] that calls a request function logs the call with the
    answer [r] of [client.Do] and goes on with [f_response r], which is
    what the function returns when its request is answered with [r]. *)

Lemma request_functions_answered {C : Crypto} {D : JSONDecoder}
    (s : UfileStorage) (content : slice) (filename : string)
    (info : initResponse) (partNum : Z) (tags : string) (r : do_result) :
  put (fun _ => r) s content filename = put_response r /\
  initiateMultipartUpload (fun _ => r) s filename
  = initiateMultipartUpload_response r /\
  uploadPart (fun _ => r) s content info partNum = uploadPart_response r /\
  finishMultipartUpload (fun _ => r) s info tags
  = finishMultipartUpload_response r.
Proof. done. Qed.

(** ** Integers and slices *)

Lemma int_wrap_id z : int_min <= z <= int_max -> int_wrap z = z.
Proof.
  unfold int_min, int_max, int_wrap. intros Hz.
  rewrite Z.mod_small; lia.
Qed.

Section Multipart.
Context {D : JSONDecoder} (lv : loopvar) (content : slice) (filename : string)
        (info : initResponse).
Hypothesis content_wf : slice_wf content.
Hypothesis BlkSize_pos : 0 < BlkSize info.

Local Abbreviation B := (BlkSize info).
Local Abbreviation q := (len content / BlkSize info).

Lemma q_bounds : 0 <= q /\ q * B <= len content /\ q <= len content /\ len content <= int_max.
Proof.
  destruct content_wf as (H0 & H1 & H2).
  assert (0 <= q) by (apply Z.div_pos; lia).
  assert (q * B <= len content) by (rewrite Z.mul_comm; apply Z.mul_div_le; lia).
  repeat split; try lia. nia.
Qed.

Lemma int_quo_size : int_quo (len content) B = Ok q.
Proof.
  pose proof q_bounds as (? & ? & ? & ?).
  destruct content_wf as (H0' & H1' & H2').
  unfold int_quo. destruct (Z.eqb_spec B 0); [lia|].
  rewrite Z.quot_div_nonneg by lia.
  rewrite int_wrap_id; [done | unfold int_min; lia].
Qed.

Lemma int_mul_part j : 0 <= j <= q -> int_mul j B = j * B /\ 0 <= j * B <= len content.
Proof.
  intros Hj. pose proof q_bounds as (? & ? & ? & ?).
  assert (0 <= j * B <= q * B) by nia.
  split; [|lia]. unfold int_mul. apply int_wrap_id. unfold int_min. lia.
Qed.

Lemma int_add_1 j : 0 <= j < q -> int_add j 1 = j + 1.
Proof.
  intros Hj. pose proof q_bounds as (? & ? & ? & ?).
  unfold int_add. apply int_wrap_id. unfold int_min. lia.
Qed.

Lemma slice_range_full j :
  0 <= j < q ->
  slice_range content (int_mul j B) (int_mul (int_add j 1) B)
  = Ok (full_part content B j).
Proof.
  intros Hj. rewrite int_add_1 by done.
  destruct (int_mul_part j) as [-> ?]; [lia|].
  destruct (int_mul_part (j + 1)) as [-> ?]; [lia|].
  destruct content_wf as (H0' & H1' & H2').
  unfold slice_range, full_part.
  replace ((0 <=? j * B) && (j * B <=? (j + 1) * B) && ((j + 1) * B <=? cap content)) with true.
  2:{ symmetry. rewrite !andb_true_iff, !Z.leb_le. lia. }
  do 2 f_equal. lia.
Qed.

Lemma slice_from_remainder :
  slice_from content (int_mul q B) = Ok (remainder_part content B q).
Proof.
  pose proof q_bounds as (? & ? & ? & ?).
  destruct (int_mul_part q) as [-> ?]; [lia|].
  unfold slice_from, remainder_part.
  replace ((0 <=? q * B) && (q * B <=? len content)) with true; [done|].
  symmetry. rewrite !andb_true_iff, !Z.leb_le. lia.
Qed.

Lemma filter_split (P : goroutine -> Prop) `{!forall g, Decision (P g)}
    (gs : list goroutine) k g g' :
  gs !! k = Some g ->
  filter P gs ≡ₚ (if decide (P g) then [g] else []) ++ filter P (take k gs ++ drop (S k) gs) /\
  filter P (<[k:=g']> gs) ≡ₚ (if decide (P g') then [g'] else []) ++ filter P (take k gs ++ drop (S k) gs).
Proof.
  intros Hk.
  assert (Hlt : (k < length gs)%nat) by (eapply lookup_lt_Some; eauto).
  split.
  - rewrite <- (take_drop_middle gs k g Hk) at 1.
    rewrite !filter_app, filter_cons.
    destruct (decide (P g)); simpl; [|done].
    by rewrite Permutation_middle.
  - rewrite insert_take_drop by done.
    rewrite !filter_app, filter_cons.
    destruct (decide (P g')); simpl; [|done].
    by rewrite Permutation_middle.
Qed.

(** A goroutine moves to a state in which it has not returned. *)
Lemma wg_insert_running (gs : list goroutine) k g g' :
  gs !! k = Some g -> goroutine_done g = false -> goroutine_done g' = false ->
  length (filter (fun g => goroutine_done g = false) (<[k:=g']> gs))
  = length (filter (fun g => goroutine_done g = false) gs).
Proof.
  intros Hk Hg Hg'.
  destruct (filter_split (fun g => goroutine_done g = false) gs k g g' Hk) as [E1 E2].
  rewrite E1, E2. rewrite (decide_True _ _ Hg), (decide_True _ _ Hg'). done.
Qed.

Lemma wg_insert_done (gs : list goroutine) k g g' :
  gs !! k = Some g -> goroutine_done g = false -> goroutine_done g' = true ->
  S (length (filter (fun g => goroutine_done g = false) (<[k:=g']> gs)))
  = length (filter (fun g => goroutine_done g = false) gs).
Proof.
  intros Hk Hg Hg'.
  destruct (filter_split (fun g => goroutine_done g = false) gs k g g' Hk) as [E1 E2].
  rewrite E1, E2. rewrite (decide_True _ _ Hg).
  rewrite decide_False by (rewrite Hg'; done). done.
Qed.

Lemma called_insert_same (f : goroutine -> slice) (gs : list goroutine) k g g' :
  gs !! k = Some g -> goroutine_called g = goroutine_called g' -> f g = f g' ->
  f <$> filter (fun g => goroutine_called g = true) (<[k:=g']> gs)
  ≡ₚ f <$> filter (fun g => goroutine_called g = true) gs.
Proof.
  intros Hk Hc Hf.
  destruct (filter_split (fun g => goroutine_called g = true) gs k g g' Hk) as [E1 E2].
  rewrite E1, E2, !fmap_app. f_equiv.
  rewrite <- Hc. destruct (decide (goroutine_called g = true)); simpl; by rewrite ?Hf.
Qed.

Lemma called_insert_new (f : goroutine -> slice) (gs : list goroutine) k g g' :
  gs !! k = Some g -> goroutine_called g = false -> goroutine_called g' = true ->
  f <$> filter (fun g => goroutine_called g = true) (<[k:=g']> gs)
  ≡ₚ (f <$> filter (fun g => goroutine_called g = true) gs) ++ [f g'].
Proof.
  intros Hk Hc Hc'.
  destruct (filter_split (fun g => goroutine_called g = true) gs k g g' Hk) as [E1 E2].
  rewrite E1, E2, !fmap_app.
  rewrite (decide_True _ _ Hc'). rewrite decide_False by (rewrite Hc; done).
  simpl. by rewrite <- Permutation_cons_append.
Qed.

Lemma all_done (gs : list goroutine) k g :
  length (filter (fun g => goroutine_done g = false) gs) = 0%nat ->
  gs !! k = Some g -> goroutine_done g = true.
Proof.
  intros Hl Hk. apply length_zero_iff_nil in Hl.
  destruct (goroutine_done g) eqn:E; [done|].
  assert (Hin : g ∈ filter (fun g => goroutine_done g = false) gs).
  { apply list_elem_of_filter. split; [done|]. eapply list_elem_of_lookup_2; eauto. }
  rewrite Hl in Hin. by apply not_elem_of_nil in Hin.
Qed.

Lemma part_calls_app l1 l2 : part_calls (l1 ++ l2) = part_calls l1 ++ part_calls l2.
Proof. unfold part_calls. apply omap_app. Qed.

Lemma Inv_step_main r st st' :
  Inv lv content info st ->
  Save_step_main content filename r st = Some st' ->
  Inv lv content info st'.
Proof.
  intros [Hi Hp Hn Hg Hl Hw Hc Hpa] Hs.
  unfold Save_step_main in Hs. unfold loop_ok in Hl. unfold parts_ok in Hpa.
  destruct (pc st) eqn:Epc.
  - done.
  - destruct (Z.ltb_spec (loop_i st) (num st)); simplify_eq.
    + constructor; simpl; try done.
      * intros k g Hk. apply lookup_app_Some in Hk as [Hk|[Hlen Hk]]; [by apply Hg|].
        apply list_lookup_singleton_Some in Hk as [Hk <-].
        split; [simpl; lia | done].
      * unfold loop_ok; simpl. rewrite length_app; simpl. lia.
      * rewrite filter_app, length_app. simpl. lia.
      * unfold parts_ok; simpl.
        destruct Hpa as (fulls & rem & E1 & E2 & E3).
        exists fulls, rem. split; [done|]. split; [|done].
        rewrite E2, filter_app. simpl. by rewrite app_nil_r.
    + constructor; simpl; try done.
      unfold loop_ok; simpl. lia.
  - simplify_eq. pose proof q_bounds as (? & ? & ? & ?).
    constructor; simpl; try done.
    unfold loop_ok; simpl. unfold int_add. rewrite int_wrap_id; [lia|].
    unfold int_min. lia.
  - rewrite Hi in Hs. destruct (Z.eqb_spec (wg st) 0); [|done].
    rewrite Hn in Hs. destruct (int_mul_part q) as [Em ?].
    { pose proof q_bounds. lia. }
    rewrite slice_from_remainder in Hs. rewrite Em in Hs.
    destruct (Z.ltb_spec (q * B) (len content)); simplify_eq.
    + constructor; simpl; try done.
      unfold loop_ok; simpl. rewrite Hn. repeat split; try lia.
    + constructor; simpl; try done.
      * unfold loop_ok; simpl. lia.
      * unfold parts_ok; simpl.
        destruct Hpa as (fulls & rem & E1 & E2 & E3).
        exists fulls, []. subst rem. split; [done|]. split; [done|].
        unfold remainder_calls. by rewrite (proj2 (Z.ltb_ge _ _)).
  - rewrite Hi in Hs. simpl in Hs.
    destruct Hl as (Hl1 & Hl2 & Hl3 & Hl4 & Hl5).
    destruct Hpa as (fulls & rem & E1 & E2 & E3). subst rem.
    assert (Hev : event_ok lv content info (CallUploadPart part info (num st) r)).
    { simpl. split; [done|]. right. rewrite <- Hn. done. }
    assert (Hpa' : part_calls (calls st ++ [CallUploadPart part info (num st) r])
                   = fulls ++ remainder_calls content info).
    { rewrite part_calls_app, E1. simpl. rewrite app_nil_r.
      unfold remainder_calls. rewrite <- Hn.
      rewrite (proj2 (Z.ltb_lt _ _)) by done. by rewrite Hl4. }
    destruct (uploadPart_response r) as [[res etag]|err]; simplify_eq.
    + constructor; simpl; try done.
      * apply Forall_app; split; [done|]. by constructor.
      * unfold parts_ok; simpl. eauto.
    + constructor; simpl; try done.
      * apply Forall_app; split; [done|]. by constructor.
      * unfold parts_ok; simpl. eauto.
  - rewrite Hi in Hs. simpl in Hs.
    destruct Hpa as (fulls & rem & E1 & E2 & E3).
    assert (Hpa' : part_calls (calls st ++ [CallFinish info (Join (etags st) ",") r])
                   = fulls ++ rem).
    { rewrite part_calls_app, E1. simpl. by rewrite app_nil_r. }
    destruct (finishMultipartUpload_response r); simplify_eq.
    + constructor; simpl; try done.
      * apply Forall_app; split; [done|]. by constructor.
      * unfold parts_ok; simpl. eauto.
    + constructor; simpl; try done.
      * apply Forall_app; split; [done|]. by constructor.
      * unfold parts_ok; simpl. eauto.
  - done.
Qed.

(** While a goroutine has not returned, [Save] is in its loop or at
    [wg.Wait()], and the goroutine's index is below the one the loop
    variable holds or is about to take. *)
Lemma running_goroutine st k g :
  Inv lv content info st ->
  goroutines st !! k = Some g -> goroutine_done g = false ->
  goroutine_j g = Z.of_nat k /\ 0 <= goroutine_j g < q /\
  goroutine_j g <= loop_i st <= q /\
  match pc st with
  | M_for_cond | M_for_post | M_Wait => True
  | _ => False
  end.
Proof.
  intros [Hi Hp Hn Hg Hl Hw Hc Hpa] Hk Hd.
  destruct (Hg k g Hk) as [Hj _].
  pose proof (lookup_lt_Some _ _ _ Hk) as Hlt.
  unfold loop_ok in Hl. rewrite <- Hn.
  destruct (pc st); try done; try (repeat split; lia).
  all: destruct_and!;
    assert (goroutine_done g = true) by (eapply all_done; eauto; lia); congruence.
Qed.

Lemma Inv_step_go k r st st' :
  Inv lv content info st ->
  Save_step_go lv content k r st = Some st' ->
  Inv lv content info st'.
Proof.
  intros HI Hs. unfold Save_step_go in Hs.
  destruct (goroutines st !! k) as [g|] eqn:Ek; [|done].
  destruct (goroutine_done g) eqn:Ed.
  { destruct g; try done. by destruct (initRes st). }
  pose proof (running_goroutine st k g HI Ek Ed) as (Hj & Hjq & Hji & Hpc).
  destruct HI as [Hi Hp Hn Hg Hl Hw Hc Hpa].
  rewrite Hi in Hs. unfold loop_ok in Hl. unfold parts_ok in Hpa.
  destruct Hpa as (fulls & rem & E1 & E2 & E3).
  assert (Hm : match pc st with
               | M_finish | M_return _ => remainder_calls content info
               | _ => []
               end = []) by (destruct (pc st); done).
  rewrite Hm in E3. subst rem.
  destruct g as [j|j part|j err|j etag|j]; simpl in Hj, Hjq, Hji.
  - rewrite slice_range_full in Hs by done. simplify_eq.
    constructor; simpl; try done.
    + intros k' g' Hk'. destruct (decide (k = k')) as [<-|Hne].
      * rewrite list_lookup_insert_eq in Hk' by (eapply lookup_lt_Some; eauto).
        simplify_eq. split; [done|done].
      * rewrite list_lookup_insert_ne in Hk' by done. by apply Hg.
    + unfold loop_ok; simpl. rewrite length_insert. destruct (pc st); done.
    + erewrite wg_insert_running; eauto.
    + unfold parts_ok; simpl. exists fulls, []. split; [done|]. split; [|by rewrite Hm].
      rewrite E2. symmetry. eapply called_insert_same; eauto.
  - simpl in Hs.
    assert (Hev : event_ok lv content info
              (CallUploadPart part info (closure_i lv j st) r)).
    { simpl. split; [done|]. left. exists j. split; [done|].
      destruct (Hg k _ Ek) as [_ ->]. split; [done|].
      destruct lv; simpl; split; try lia; done. }
    assert (Hgs : forall g', goroutine_j g' = j -> goroutine_called g' = true ->
              goroutine_done g' = false ->
              Inv lv content info
                (set_goroutine k g'
                   (log (CallUploadPart part info (closure_i lv j st) r) st))).
    { intros g' Hj' Hc' Hd'. constructor; simpl; try done.
      + intros k' g'' Hk'. destruct (decide (k = k')) as [<-|Hne].
        * rewrite list_lookup_insert_eq in Hk' by (eapply lookup_lt_Some; eauto).
          simplify_eq. split; [done|]. by destruct g''.
        * rewrite list_lookup_insert_ne in Hk' by done. by apply Hg.
      + unfold loop_ok; simpl. rewrite length_insert. destruct (pc st); done.
      + erewrite wg_insert_running; eauto.
      + apply Forall_app; split; [done|]. by constructor.
      + unfold parts_ok; simpl.
        exists (fulls ++ [(part, closure_i lv j st)]), [].
        split; [rewrite part_calls_app, E1; simpl; by rewrite !app_nil_r|].
        split; [|by rewrite Hm].
        rewrite fmap_app, E2. simpl.
        rewrite (called_insert_new _ _ k (G_uploadPart j part) g') by done.
        rewrite Hj'. destruct (Hg k _ Ek) as [_ ->]. done. }
    destruct (uploadPart_response r) as [[res etag]|err]; simplify_eq;
      by apply Hgs.
  - destruct (Nat.ltb_spec (length (errChan st)) errChan_cap); simplify_eq.
    constructor; simpl; try done.
    + intros k' g' Hk'. destruct (decide (k = k')) as [<-|Hne].
      * rewrite list_lookup_insert_eq in Hk' by (eapply lookup_lt_Some; eauto).
        simplify_eq. split; [done|done].
      * rewrite list_lookup_insert_ne in Hk' by done. by apply Hg.
    + unfold loop_ok; simpl. rewrite length_insert. destruct (pc st); done.
    + pose proof (wg_insert_done (goroutines st) k _ (G_done (Z.of_nat k)) Ek Ed eq_refl). lia.
    + unfold parts_ok; simpl. exists fulls, []. split; [done|]. split; [|by rewrite Hm].
      rewrite E2. symmetry. eapply called_insert_same; eauto.
  - simplify_eq.
    constructor; simpl; try done.
    + intros k' g' Hk'. destruct (decide (k = k')) as [<-|Hne].
      * rewrite list_lookup_insert_eq in Hk' by (eapply lookup_lt_Some; eauto).
        simplify_eq. split; [done|done].
      * rewrite list_lookup_insert_ne in Hk' by done. by apply Hg.
    + unfold loop_ok; simpl. rewrite length_insert. destruct (pc st); done.
    + pose proof (wg_insert_done (goroutines st) k _ (G_done (Z.of_nat k)) Ek Ed eq_refl). lia.
    + unfold parts_ok; simpl. exists fulls, []. split; [done|]. split; [|by rewrite Hm].
      rewrite E2. symmetry. eapply called_insert_same; eauto.
  - done.
Qed.
End Multipart.

Section Executions.
Context {D : JSONDecoder} (lv : loopvar) (content : slice) (filename : string).

Lemma Save_exec_app sched1 sched2 st :
  Save_exec lv content filename (sched1 ++ sched2) st
  = match Save_exec lv content filename sched1 st with
    | Some st' => Save_exec lv content filename sched2 st'
    | None => None
    end.
Proof.
  revert st. induction sched1 as [|[t r] sched1 IH]; intros st; simpl; [done|].
  destruct (Save_step lv content filename t r st); [apply IH | done].
Qed.

Lemma Save_exec_stuck sched st st' :
  stuck lv content filename st ->
  Save_exec lv content filename sched st = Some st' ->
  sched = [] /\ st' = st.
Proof.
  intros Hst. destruct sched as [|[t r] sched]; simpl.
  - by intros [= <-].
  - by rewrite Hst.
Qed.

Lemma panicked_stuck st p :
  panicked st = Some p -> stuck lv content filename st.
Proof. intros Hp t r. unfold Save_step. by rewrite Hp. Qed.

Lemma returned_stuck st err :
  pc st = M_return err -> goroutines st = [] -> stuck lv content filename st.
Proof.
  intros Hpc Hg t r. unfold Save_step.
  destruct (panicked st); [done|]. destruct t as [|k].
  - unfold Save_step_main. by rewrite Hpc.
  - unfold Save_step_go. by rewrite Hg.
Qed.

(** Past the first statement a step leaves [initRes] alone and adds at
    most one call to the log: a part upload or the finalization, for
    the session [initRes]. *)
Lemma Save_step_calls t r st st' :
  Save_step lv content filename t r st = Some st' ->
  pc st <> M_entry ->
  pc st' <> M_entry /\ initRes st' = initRes st /\
  (calls st' = calls st \/
   (exists i part n, initRes st = Some i /\
      calls st' = calls st ++ [CallUploadPart part i n r]) \/
   (exists i tags, initRes st = Some i /\
      calls st' = calls st ++ [CallFinish i tags r])).
Proof.
  unfold Save_step. destruct (panicked st); [done|].
  destruct t as [|k].
  - unfold Save_step_main. destruct (pc st) eqn:Epc; try done; intros Hs _.
    + destruct (loop_i st <? num st); simplify_eq; simpl; rewrite ?Epc; eauto.
    + simplify_eq; simpl; eauto.
    + destruct (initRes st) as [i|] eqn:Ei; [|done].
      destruct (wg st =? 0); [|done].
      destruct (int_mul (num st) (BlkSize i) <? len content).
      * destruct (slice_from _ _); simplify_eq; simpl; rewrite ?Epc; eauto.
      * simplify_eq; simpl; eauto.
    + destruct (initRes st) as [i|] eqn:Ei; [|done]. simpl in Hs.
      destruct (uploadPart_response r) as [[? ?]|?]; simplify_eq; simpl;
        (split; [done|]); (split; [done|]); right; left; eauto.
    + destruct (initRes st) as [i|] eqn:Ei; [|done]. simpl in Hs.
      destruct (finishMultipartUpload_response r); simplify_eq; simpl;
        (split; [done|]); (split; [done|]); right; right; eauto.
  - unfold Save_step_go. intros Hs Hpc.
    destruct (goroutines st !! k) as [g|]; [|done].
    destruct (initRes st) as [i|] eqn:Ei; [|done].
    destruct g; simpl in Hs.
    + destruct (slice_range _ _ _); simplify_eq; simpl; eauto.
    + destruct (uploadPart_response r) as [[? ?]|?]; simplify_eq; simpl;
        (split; [done|]); (split; [done|]); right; left; eauto.
    + destruct (_ <? _)%nat; simplify_eq; simpl; eauto.
    + simplify_eq; simpl; eauto.
    + done.
Qed.

(** The first step of an execution. *)
Lemma Save_step_entry t r st :
  Save_step lv content filename t r Save_init = Some st ->
  t = Main /\
  ((len content <= MAX_PUT_SIZE /\
    st = set_pc (M_return (put_response r))
                (log (CallPut content filename r) Save_init)) \/
   (MAX_PUT_SIZE < len content /\
    ((exists err, initiateMultipartUpload_response r = Err err /\
        st = set_pc (M_return (Some err))
                    (log (CallInitiate filename r) Save_init)) \/
     (exists info, initiateMultipartUpload_response r = Ok info /\
        ((exists p, int_quo (len content) (BlkSize info) = Err p /\
            st = set_panic p (set_initRes info
                   (log (CallInitiate filename r) Save_init))) \/
         (exists n, int_quo (len content) (BlkSize info) = Ok n /\
            st = enter_multipart info n
                   (log (CallInitiate filename r) Save_init))))))).
Proof.
  unfold Save_step; simpl. destruct t as [|k]; [|done].
  unfold Save_step_main; simpl. intros Hs. split; [done|].
  destruct (Z.gtb_spec (len content) MAX_PUT_SIZE).
  - right. split; [lia|].
    destruct (initiateMultipartUpload_response r) as [info|err]; [|left; naive_solver].
    right. exists info. split; [done|].
    destruct (int_quo _ _); simplify_eq; eauto.
  - left. split; [lia|]. by simplify_eq.
Qed.

End Executions.

Section Reachable.
Context {D : JSONDecoder} (lv : loopvar) (content : slice) (filename : string).

Lemma Inv_step info t r st st' :
  slice_wf content -> 0 < BlkSize info ->
  Inv lv content info st ->
  Save_step lv content filename t r st = Some st' ->
  Inv lv content info st'.
Proof.
  intros Hwf HB HI. unfold Save_step. rewrite (inv_panicked _ _ _ _ HI).
  destruct t; [by apply Inv_step_main | by apply Inv_step_go].
Qed.

Lemma Inv_exec info sched st st' :
  slice_wf content -> 0 < BlkSize info ->
  Inv lv content info st ->
  Save_exec lv content filename sched st = Some st' ->
  Inv lv content info st'.
Proof.
  intros Hwf HB. revert st. induction sched as [|[t r] sched IH]; intros st HI; simpl.
  - by intros [= <-].
  - destruct (Save_step lv content filename t r st) as [st1|] eqn:Es; [|done].
    apply IH. by eapply Inv_step.
Qed.

Lemma Save_exec_initRes sched st st' :
  pc st <> M_entry ->
  Save_exec lv content filename sched st = Some st' ->
  pc st' <> M_entry /\ initRes st' = initRes st.
Proof.
  revert st. induction sched as [|[t r] sched IH]; intros st Hpc; simpl.
  - by intros [= <-].
  - destruct (Save_step lv content filename t r st) as [st1|] eqn:Es; [|done].
    destruct (Save_step_calls _ _ _ _ _ _ _ Es Hpc) as (Hpc1 & Hi1 & _).
    intros Hex. destruct (IH _ Hpc1 Hex) as [? ?]. split; [done | congruence].
Qed.

Lemma Inv_enter_multipart info r :
  slice_wf content -> 0 < BlkSize info ->
  Inv lv content info
    (enter_multipart info (len content / BlkSize info)
       (log (CallInitiate filename r) Save_init)).
Proof.
  intros Hwf HB. pose proof (q_bounds content info Hwf HB) as (? & ? & ? & ?).
  constructor; simpl; try done.
  - repeat constructor.
  - exists [], []. done.
Qed.

(** The states of the multipart branch of a session with a positive
    block size satisfy the invariant. *)
Lemma Save_run_Inv info sched st :
  slice_wf content ->
  Save_run lv content filename sched = Some st ->
  initRes st = Some info -> 0 < BlkSize info ->
  Inv lv content info st.
Proof.
  intros Hwf Hrun Hi HB. unfold Save_run in Hrun.
  destruct sched as [|[t r] sched]; simpl in Hrun; [by simplify_eq|].
  destruct (Save_step lv content filename t r Save_init) as [st1|] eqn:Es; [|done].
  apply Save_step_entry in Es as [-> [[_ ->]|[Hlen [(err & _ & ->)|(info1 & Hr & [(p & Hq & ->)|(n & Hq & ->)])]]]].
  - apply Save_exec_stuck in Hrun as [_ ->]; [done|].
    by eapply returned_stuck.
  - apply Save_exec_stuck in Hrun as [_ ->]; [done|].
    by eapply returned_stuck.
  - apply Save_exec_stuck in Hrun as [_ ->]; [|by eapply panicked_stuck].
    simpl in Hi. simplify_eq. unfold int_quo in Hq.
    destruct (Z.eqb_spec (BlkSize info) 0); [lia | done].
  - destruct (fun Hpc => Save_exec_initRes _ _ _ Hpc Hrun) as [_ Hi']; [done|].
    simpl in Hi'. rewrite Hi in Hi'. simplify_eq.
    rewrite int_quo_size in Hq by done. simplify_eq.
    eapply Inv_exec; [done..| |done]. by apply Inv_enter_multipart.
Qed.


End Reachable.

Section Claims.
Context {D : JSONDecoder} (lv : loopvar) (content : slice) (filename : string).

Lemma filter_Forall {A} (P : A -> Prop) `{!forall x, Decision (P x)} (l : list A) :
  Forall P l -> filter P l = l.
Proof.
  induction 1 as [|x l Hx _ IH]; [done|].
  by rewrite filter_cons_True, IH.
Qed.

Lemma goroutine_js (gs : list goroutine) :
  (forall k g, gs !! k = Some g -> goroutine_j g = Z.of_nat k) ->
  goroutine_j <$> gs = seqZ 0 (Z.of_nat (length gs)).
Proof.
  intros Hj. apply list_eq. intros k. rewrite list_lookup_fmap.
  destruct (gs !! k) as [g|] eqn:Ek; simpl.
  - rewrite (Hj _ _ Ek). symmetry. apply lookup_seqZ.
    split; [lia|]. apply lookup_lt_Some in Ek. lia.
  - symmetry. apply lookup_seqZ_ge. apply lookup_ge_None in Ek. lia.
Qed.


(** Past the part uploads, the log holds one upload for each full part
    and then the upload of the remainder, when there is one. *)
Lemma Save_parts_uploaded info sched st :
  slice_wf content ->
  Save_run lv content filename sched = Some st ->
  initRes st = Some info -> 0 < BlkSize info ->
  past_parts st ->
  exists fulls,
    part_calls (calls st) = fulls ++ remainder_calls content info /\
    fulls.*1 ≡ₚ full_part content (BlkSize info)
                  <$> seqZ 0 (len content / BlkSize info).
Proof.
  intros Hwf Hrun Hi HB Hpast.
  destruct (Save_run_Inv _ _ _ _ _ _ Hwf Hrun Hi HB)
    as [_ _ Hn Hg Hl Hw _ (fulls & rem & E1 & E2 & E3)].
  unfold past_parts in Hpast. unfold loop_ok in Hl.
  assert (Hdone : Z.of_nat (length (goroutines st)) = len content / BlkSize info
                  /\ wg st = 0 /\ rem = remainder_calls content info).
  { destruct (pc st); try done; rewrite <- Hn; destruct_and!; done. }
  destruct Hdone as (Hlen & Hwg & ->). exists fulls. split; [done|].
  rewrite E2, filter_Forall.
  - rewrite <- Hlen, <- goroutine_js by (intros k g Hk; apply (Hg k g Hk)).
    by rewrite <- list_fmap_compose.
  - apply Forall_lookup. intros k g Hk.
    assert (goroutine_done g = true) by (eapply all_done; eauto; lia).
    by destruct g.
Qed.
End Claims.

(** ** The log of an execution *)

Section Log.
Context {D : JSONDecoder} (lv : loopvar) (content : slice) (filename : string).

Lemma Save_exec_calls sched st st' :
  pc st <> M_entry ->
  Save_exec lv content filename sched st = Some st' ->
  initRes st' = initRes st /\
  exists es, calls st' = calls st ++ es /\ Forall (session_call (initRes st)) es.
Proof.
  revert st. induction sched as [|[t r] sched IH]; intros st Hpc; simpl.
  - intros [= <-]. split; [done|]. exists []. by rewrite app_nil_r.
  - destruct (Save_step lv content filename t r st) as [st1|] eqn:Es; [|done].
    destruct (Save_step_calls _ _ _ _ _ _ _ Es Hpc) as (Hpc1 & Hi1 & Hc1).
    intros Hex. destruct (IH _ Hpc1 Hex) as (Hi & es & Hes & Hall).
    rewrite Hi1 in Hi, Hall. split; [done|].
    destruct Hc1 as [Hc1|[(i & part & n & Hi0 & Hc1)|(i & tags & Hi0 & Hc1)]];
      rewrite Hc1 in Hes.
    + by exists es.
    + exists (CallUploadPart part i n r :: es).
      rewrite <- app_assoc in Hes. split; [done|]. by constructor.
    + exists (CallFinish i tags r :: es).
      rewrite <- app_assoc in Hes. split; [done|]. by constructor.
Qed.

(** An execution that has made a step starts with the call of [put] and
    ends there, or starts with the call of [initiateMultipartUpload],
    after which only part uploads and the finalization of that session
    follow. *)
Lemma Save_run_calls sched st :
  Save_run lv content filename sched = Some st ->
  sched <> [] ->
  (len content <= MAX_PUT_SIZE /\
   exists r, sched = [(Main, r)] /\ pc st = M_return (put_response r) /\
             calls st = [CallPut content filename r]) \/
  (MAX_PUT_SIZE < len content /\
   exists r es, calls st = CallInitiate filename r :: es /\
                Forall (session_call (initRes st)) es).
Proof.
  intros Hrun Hne. unfold Save_run in Hrun.
  destruct sched as [|[t r] sched]; [done|]. simpl in Hrun.
  destruct (Save_step lv content filename t r Save_init) as [st1|] eqn:Es; [|done].
  apply Save_step_entry in Es
    as [-> [[Hlen ->]|[Hlen [(err & _ & ->)|(info1 & Hr & [(p & Hq & ->)|(n & Hq & ->)])]]]].
  - apply Save_exec_stuck in Hrun as [-> ->]; [|by eapply returned_stuck].
    left. split; [done|]. by exists r.
  - apply Save_exec_stuck in Hrun as [-> ->]; [|by eapply returned_stuck].
    right. split; [done|]. by exists r, [].
  - apply Save_exec_stuck in Hrun as [-> ->]; [|by eapply panicked_stuck].
    right. split; [done|]. by exists r, [].
  - destruct (fun Hpc => Save_exec_calls _ _ _ Hpc Hrun) as (Hi & es & Hes & Hall);
      [done|].
    right. split; [done|]. exists r, es. split; [done|]. by rewrite Hi.
Qed.
End Log.

(** ** Blocking and termination *)

Section Progress.
Context {D : JSONDecoder} (lv : loopvar) (content : slice) (filename : string)
        (info : initResponse).
Hypothesis content_wf : slice_wf content.
Hypothesis BlkSize_pos : 0 < BlkSize info.

Lemma filter_insert_length (P : goroutine -> Prop) `{!forall g, Decision (P g)}
    (gs : list goroutine) k g g' :
  gs !! k = Some g ->
  (length (filter P (<[k:=g']> gs)) + (if decide (P g) then 1 else 0)
   = length (filter P gs) + (if decide (P g') then 1 else 0))%nat.
Proof.
  intros Hk. destruct (filter_split P gs k g g' Hk) as [E1 E2].
  rewrite E1, E2, !length_app.
  destruct (decide (P g)), (decide (P g')); simpl; lia.
Qed.

Lemma sum_steps_insert (gs : list goroutine) k g g' :
  gs !! k = Some g ->
  (sum_list_with goroutine_steps (<[k:=g']> gs) + goroutine_steps g
   = sum_list_with goroutine_steps gs + goroutine_steps g')%nat.
Proof.
  intros Hk.
  assert (Hlt : (k < length gs)%nat) by (eapply lookup_lt_Some; eauto).
  rewrite insert_take_drop by done.
  rewrite <- (take_drop_middle gs k g Hk) at 3.
  rewrite !sum_list_with_app. simpl. lia.
Qed.

Lemma failed_parts_app l1 l2 :
  failed_parts (l1 ++ l2) = failed_parts l1 ++ failed_parts l2.
Proof. unfold failed_parts. apply omap_app. Qed.

Lemma errors_ok_step t r st st' :
  Inv lv content info st -> errors_ok st ->
  Save_step lv content filename t r st = Some st' ->
  errors_ok st'.
Proof.
  intros HI He Hs. unfold Save_step in Hs.
  rewrite (inv_panicked _ _ _ _ HI) in Hs. destruct t as [|k].
  - unfold Save_step_main in Hs. unfold errors_ok in *.
    pose proof (inv_initRes _ _ _ _ HI) as Hi.
    pose proof (inv_loop _ _ _ _ HI) as Hl. unfold loop_ok in Hl.
    destruct (pc st) eqn:Epc; try done.
    + destruct (loop_i st <? num st); simplify_eq; simpl; [|done].
      rewrite filter_app, length_app. simpl. lia.
    + by simplify_eq/=.
    + rewrite Hi in Hs. destruct (wg st =? 0); [|done].
      destruct (_ <? _); [destruct (slice_from _ _)|]; simplify_eq/=; rewrite ?Epc; done.
    + rewrite Hi in Hs. simpl in Hs.
      destruct (uploadPart_response r) as [[? ?]|?]; by simplify_eq/=.
    + rewrite Hi in Hs. simpl in Hs.
      destruct (finishMultipartUpload_response r); by simplify_eq/=.
  - unfold Save_step_go in Hs.
    destruct (goroutines st !! k) as [g|] eqn:Ek; [|done].
    destruct (goroutine_done g) eqn:Ed.
    { destruct g; try done. by destruct (initRes st). }
    pose proof (running_goroutine _ _ _ _ _ _ HI Ek Ed) as (_ & Hjq & _ & Hpc).
    rewrite (inv_initRes _ _ _ _ HI) in Hs. unfold errors_ok in *.
    pose proof (fun g' => filter_insert_length
                  (fun g => goroutine_sending g = true) _ k g g' Ek) as Hf.
    destruct g as [j|j part|j err|j etag|j]; simpl in Hjq.
    + rewrite slice_range_full in Hs by done. simplify_eq; simpl.
      specialize (Hf (G_uploadPart j (full_part content (BlkSize info) j))).
      simpl in Hf. destruct (pc st); try done; lia.
    + simpl in Hs. unfold failed_parts in *.
      destruct (uploadPart_response r) as [[res etag]|err] eqn:Er;
        simplify_eq; simpl; rewrite omap_app; simpl; rewrite Er, length_app; simpl.
      * specialize (Hf (G_append j etag)). simpl in Hf.
        destruct (pc st); try done; lia.
      * specialize (Hf (G_send j err)). simpl in Hf.
        destruct (pc st); try done; lia.
    + destruct (_ <? _)%nat; simplify_eq; simpl.
      specialize (Hf (G_done j)). simpl in Hf. rewrite length_app. simpl.
      destruct (pc st); try done; lia.
    + simplify_eq; simpl. specialize (Hf (G_done j)). simpl in Hf.
      destruct (pc st); try done; lia.
    + done.
Qed.
End Progress.

Section Termination.
Context {D : JSONDecoder} (lv : loopvar) (content : slice) (filename : string).

(** The executions of the multipart branch, from the state in which the
    loop is entered. *)
Lemma Save_run_enter info sched st :
  Save_run lv content filename sched = Some st ->
  initRes st = Some info -> BlkSize info <> 0 ->
  exists r n sched',
    sched = (Main, r) :: sched' /\
    int_quo (len content) (BlkSize info) = Ok n /\
    Save_exec lv content filename sched'
      (enter_multipart info n (log (CallInitiate filename r) Save_init))
    = Some st.
Proof.
  intros Hrun Hi HB. unfold Save_run in Hrun.
  destruct sched as [|[t r] sched]; simpl in Hrun; [by simplify_eq|].
  destruct (Save_step lv content filename t r Save_init) as [st1|] eqn:Es; [|done].
  apply Save_step_entry in Es
    as [-> [[_ ->]|[Hlen [(err & _ & ->)|(info1 & Hr & [(p & Hq & ->)|(n & Hq & ->)])]]]].
  - apply Save_exec_stuck in Hrun as [_ ->]; [done|].
    by eapply returned_stuck.
  - apply Save_exec_stuck in Hrun as [_ ->]; [done|].
    by eapply returned_stuck.
  - apply Save_exec_stuck in Hrun as [_ ->]; [|by eapply panicked_stuck].
    simpl in Hi. simplify_eq. unfold int_quo in Hq.
    by destruct (Z.eqb_spec (BlkSize info) 0).
  - destruct (fun Hpc => Save_exec_initRes _ _ _ _ _ _ Hpc Hrun) as [_ Hi']; [done|].
    simpl in Hi'. rewrite Hi in Hi'. simplify_eq. by exists r, n, sched.
Qed.

Lemma errors_ok_exec info sched st st' :
  slice_wf content -> 0 < BlkSize info ->
  Inv lv content info st -> errors_ok st ->
  Save_exec lv content filename sched st = Some st' ->
  errors_ok st'.
Proof.
  intros Hwf HB. revert st.
  induction sched as [|[t r] sched IH]; intros st HI He; simpl.
  - by intros [= <-].
  - destruct (Save_step lv content filename t r st) as [st1|] eqn:Es; [|done].
    apply IH; [by eapply Inv_step | by eapply errors_ok_step].
Qed.

Lemma Save_run_errors_ok info sched st :
  slice_wf content ->
  Save_run lv content filename sched = Some st ->
  initRes st = Some info -> 0 < BlkSize info ->
  errors_ok st.
Proof.
  intros Hwf Hrun Hi HB.
  destruct (Save_run_enter _ _ _ Hrun Hi ltac:(lia))
    as (r & n & sched' & -> & Hq & Hex).
  rewrite int_quo_size in Hq by done. simplify_eq.
  eapply errors_ok_exec; [done | done | by apply Inv_enter_multipart | | done].
  reflexivity.
Qed.

(** Every step uses up one of the steps left. *)
Lemma steps_left_step info t r st st' :
  slice_wf content -> 0 < BlkSize info ->
  Inv lv content info st ->
  Save_step lv content filename t r st = Some st' ->
  (steps_left st' < steps_left st)%nat.
Proof.
  intros Hwf HB HI Hs. unfold Save_step in Hs.
  rewrite (inv_panicked _ _ _ _ HI) in Hs.
  pose proof (inv_initRes _ _ _ _ HI) as Hi.
  pose proof (inv_num _ _ _ _ HI) as Hn.
  unfold steps_left, main_steps. destruct t as [|k].
  - unfold Save_step_main in Hs.
    pose proof (inv_loop _ _ _ _ HI) as Hl. unfold loop_ok in Hl.
    pose proof (q_bounds content info Hwf HB) as (? & ? & ? & ?).
    destruct (pc st) eqn:Epc; try done.
    + destruct (Z.ltb_spec (loop_i st) (num st)); simplify_eq; simpl.
      * rewrite sum_list_with_app. simpl. lia.
      * lia.
    + simplify_eq; simpl. unfold int_add.
      rewrite int_wrap_id by (unfold int_min; lia). lia.
    + rewrite Hi in Hs. destruct (wg st =? 0); [|done].
      rewrite Hn, slice_from_remainder in Hs by done.
      destruct (_ <? _); simplify_eq; simpl; lia.
    + rewrite Hi in Hs. simpl in Hs.
      destruct (uploadPart_response r) as [[? ?]|?]; simplify_eq; simpl; lia.
    + rewrite Hi in Hs. simpl in Hs.
      destruct (finishMultipartUpload_response r); simplify_eq; simpl; lia.
  - unfold Save_step_go in Hs.
    destruct (goroutines st !! k) as [g|] eqn:Ek; [|done].
    destruct (goroutine_done g) eqn:Ed.
    { destruct g; try done. by destruct (initRes st). }
    pose proof (running_goroutine _ _ _ _ _ _ HI Ek Ed) as (_ & Hjq & _ & _).
    rewrite Hi in Hs.
    pose proof (fun g' => sum_steps_insert (goroutines st) k g g' Ek) as Hsum.
    destruct g as [j|j part|j err|j etag|j]; simpl in Hjq.
    + rewrite slice_range_full in Hs by done. simplify_eq; simpl.
      specialize (Hsum (G_uploadPart j (full_part content (BlkSize info) j))).
      simpl in Hsum. lia.
    + simpl in Hs.
      destruct (uploadPart_response r) as [[res etag]|err]; simplify_eq; simpl.
      * specialize (Hsum (G_append j etag)). simpl in Hsum. lia.
      * specialize (Hsum (G_send j err)). simpl in Hsum. lia.
    + destruct (_ <? _)%nat; simplify_eq; simpl.
      specialize (Hsum (G_done j)). simpl in Hsum. lia.
    + simplify_eq; simpl. specialize (Hsum (G_done j)). simpl in Hsum. lia.
    + done.
Qed.

Lemma steps_left_exec info sched st st' :
  slice_wf content -> 0 < BlkSize info ->
  Inv lv content info st ->
  Save_exec lv content filename sched st = Some st' ->
  (length sched + steps_left st' <= steps_left st)%nat.
Proof.
  intros Hwf HB. revert st.
  induction sched as [|[t r] sched IH]; intros st HI; simpl.
  - intros [= <-]. lia.
  - destruct (Save_step lv content filename t r st) as [st1|] eqn:Es; [|done].
    intros Hex. pose proof (steps_left_step _ _ _ _ _ Hwf HB HI Es).
    pose proof (IH _ (Inv_step _ _ _ _ _ _ _ _ Hwf HB HI Es) Hex). lia.
Qed.

(** In the multipart branch of a session with a positive block size
    [Save] always comes to an end: an execution has at most
    [5 * (len(content)/B) + 5] steps.  It ends with the return of [Save]
    unless two or more uploads of full parts have failed: until then,
    as long as [Save] has not returned, some thread can move. *)
Lemma Save_returns_unless_two_parts_fail info sched st :
  slice_wf content ->
  Save_run lv content filename sched = Some st ->
  initRes st = Some info -> 0 < BlkSize info ->
  (Z.of_nat (length sched) <= 5 * (len content / BlkSize info) + 5) /\
  ((length (failed_parts (calls st)) <= 1)%nat ->
   (exists err, pc st = M_return err) \/
   (exists t, forall r, is_Some (Save_step lv content filename t r st))).
Proof.
  intros Hwf Hrun Hi HB.
  pose proof (Save_run_Inv _ _ _ _ _ _ Hwf Hrun Hi HB) as HI.
  pose proof (Save_run_errors_ok _ _ _ Hwf Hrun Hi HB) as He.
  split.
  - destruct (Save_run_enter _ _ _ Hrun Hi ltac:(lia))
      as (r & n & sched' & -> & Hq & Hex).
    rewrite int_quo_size in Hq by done. simplify_eq.
    pose proof (steps_left_exec _ _ _ _ Hwf HB
                  (Inv_enter_multipart _ _ _ _ r Hwf HB) Hex) as Hle.
    pose proof (q_bounds content info Hwf HB) as (? & _).
    unfold steps_left at 2, main_steps in Hle. simpl in Hle.
    rewrite Z.sub_0_r in Hle. simpl length. lia.
  - intros Hfail. unfold Save_step. rewrite (inv_panicked _ _ _ _ HI).
    pose proof (inv_loop _ _ _ _ HI) as Hl. unfold loop_ok in Hl.
    pose proof (inv_wg _ _ _ _ HI) as Hw.
    unfold errors_ok in He. unfold Save_step_main.
    destruct (pc st) eqn:Epc; try done.
    + right. exists Main. intros r.
      by destruct (_ <? _).
    + right. exists Main. intros r. done.
    + right. destruct (filter (fun g => goroutine_done g = false) (goroutines st))
        as [|g gs'] eqn:Ef.
      * exists Main. intros r. rewrite Hi, Hw. simpl.
        destruct (_ <? _); [destruct (slice_from _ _)|]; done.
      * assert (Hg : g ∈ filter (fun g => goroutine_done g = false) (goroutines st))
          by (rewrite Ef; left).
        apply list_elem_of_filter in Hg as [Hd Hg].
        apply list_elem_of_lookup in Hg as [k Hk].
        exists (Go k). intros r. unfold Save_step_go. rewrite Hk, Hi.
        destruct g as [j|j part|j err|j etag|j]; simpl; try done.
        -- by destruct (slice_range _ _ _).
        -- by destruct (uploadPart_response r) as [[? ?]|?].
        -- assert (Hs : G_send j err
                         ∈ filter (fun g => goroutine_sending g = true) (goroutines st)).
           { apply list_elem_of_filter. split; [done|].
             eapply list_elem_of_lookup_2; eauto. }
           destruct (filter (fun g => goroutine_sending g = true) (goroutines st));
             [by apply not_elem_of_nil in Hs|].
           simpl in He. destruct (errChan st); [done | simpl in He; lia].
    + right. exists Main. intros r. rewrite Hi. simpl.
      by destruct (uploadPart_response r) as [[? ?]|?].
    + right. exists Main. intros r. rewrite Hi. simpl.
      by destruct (finishMultipartUpload_response r).
    + left. eauto.
Qed.

End Termination.

(** ** A block size that is not positive *)

Section NegativeBlkSize.
Context {D : JSONDecoder} (lv : loopvar) (content : slice) (filename : string)
        (info : initResponse).
Hypothesis content_wf : slice_wf content.
Hypothesis BlkSize_neg : BlkSize info < 0.

Local Abbreviation B := (BlkSize info).

Lemma quot_neg_bounds :
  let n := Z.quot (len content) B in
  - len content <= n <= 0 /\ 0 <= n * B <= len content.
Proof.
  destruct content_wf as (H0 & H1 & H2). simpl.
  assert (E : Z.quot (len content) B = - (len content / - B)).
  { rewrite <- (Z.opp_involutive B) at 1.
    rewrite Z.quot_opp_r by lia. by rewrite Z.quot_div_nonneg by lia. }
  rewrite E.
  assert (0 <= len content / - B) by (apply Z.div_pos; lia).
  assert (len content / - B * - B <= len content)
    by (rewrite Z.mul_comm; apply Z.mul_div_le; lia).
  split; [nia | lia].
Qed.

Lemma no_goroutines_step t r st st' :
  no_goroutines content info st ->
  Save_step lv content filename t r st = Some st' ->
  no_goroutines content info st'.
Proof.
  intros (Hi & Hg & Hl & Hn & Hp & Hpc) Hs.
  pose proof quot_neg_bounds as [Hq1 Hq2]. simpl in Hq1, Hq2.
  destruct content_wf as (H0 & H1 & H2).
  unfold Save_step in Hs. rewrite Hp in Hs. destruct t as [|k].
  - unfold Save_step_main in Hs. destruct (pc st) eqn:Epc; try done.
    + destruct (Z.ltb_spec (loop_i st) (num st)); [lia|].
      simplify_eq. by repeat split.
    + rewrite Hi in Hs. destruct (wg st =? 0); [|done].
      assert (Em : int_mul (num st) B = num st * B).
      { unfold int_mul. apply int_wrap_id. unfold int_min, int_max in *. rewrite Hn. lia. }
      rewrite Em in Hs. unfold slice_from in Hs.
      replace ((0 <=? num st * B) && (num st * B <=? len content)) with true in Hs
        by (symmetry; rewrite andb_true_iff, !Z.leb_le, Hn; lia).
      destruct (_ <? _); simplify_eq; by repeat split.
    + rewrite Hi in Hs. simpl in Hs.
      destruct (uploadPart_response r) as [[? ?]|?]; simplify_eq; by repeat split.
    + rewrite Hi in Hs. simpl in Hs.
      destruct (finishMultipartUpload_response r); simplify_eq; by repeat split.
  - unfold Save_step_go in Hs. by rewrite Hg in Hs.
Qed.

Lemma no_goroutines_exec sched st st' :
  no_goroutines content info st ->
  Save_exec lv content filename sched st = Some st' ->
  no_goroutines content info st'.
Proof.
  revert st. induction sched as [|[t r] sched IH]; intros st HI; simpl.
  - by intros [= <-].
  - destruct (Save_step lv content filename t r st) as [st1|] eqn:Es; [|done].
    apply IH. by eapply no_goroutines_step.
Qed.

(** With a negative block size the quotient is not positive and the loop
    starts no goroutine: no full part is uploaded. *)
Lemma Save_run_BlkSize_neg sched st :
  Save_run lv content filename sched = Some st ->
  initRes st = Some info ->
  no_goroutines content info st.
Proof.
  intros Hrun Hi.
  destruct (Save_run_enter _ _ _ _ _ _ Hrun Hi ltac:(lia))
    as (r & n & sched' & -> & Hq & Hex).
  eapply no_goroutines_exec; [|exact Hex].
  pose proof quot_neg_bounds as [Hq1 Hq2]. simpl in Hq1, Hq2.
  destruct content_wf as (H0 & H1 & H2).
  unfold int_quo in Hq. destruct (Z.eqb_spec B 0); [lia|].
  rewrite int_wrap_id in Hq by (unfold int_min, int_max in *; lia). simplify_eq.
  by repeat split.
Qed.
End NegativeBlkSize.

(** * The claims *)

(** ** The Signer and the single-shot upload *)

Lemma string_app_assoc (a b c : string) : (a +:+ b) +:+ c = a +:+ (b +:+ c).
Proof.
  induction a as [|x a IH]; [done|].
  change (String x ((a +:+ b) +:+ c) = String x (a +:+ (b +:+ c))).
  by f_equal.
Qed.

(** C7. [signheader] returns the base64 encoding of the HMAC-SHA1, keyed
    by the private key, of the five lines [method], empty, [ctype], empty,
    [/bucket/filename] joined by line feeds.  It is a function: the token
    is the same for the same method, content type, bucket, key and private
    key. *)
Theorem signheader_canonical_string {C : Crypto} (s : UfileStorage)
    (method ctype bucket filename : string) :
  signheader s method ctype bucket filename
  = base64_EncodeToString
      (hmac_sha1 (list_byte_of_string (PrivateKey s))
         (list_byte_of_string
            (Join [method; EmptyString; ctype; EmptyString;
                   "/" +:+ bucket +:+ "/" +:+ filename] LF)))
  /\ forall s' : UfileStorage,
       PrivateKey s' = PrivateKey s ->
       signheader s' method ctype bucket filename
       = signheader s method ctype bucket filename.
Proof.
  split.
  - unfold signheader, Join. do 3 f_equal.
    rewrite !string_app_assoc. reflexivity.
  - intros s' Hk. unfold signheader. by rewrite Hk.
Qed.


(** ** The threshold and the partition of the payload *)





(** Every part upload of an execution with a positive block size sends
    the bytes of one full part, [content[j*B : (j+1)*B]] with [j] below
    [len(content)/B], or the remainder [content[q*B:]].  The part number
    sent with the remainder is [q].  The part number sent with the full
    part [j] is the value the loop variable had when the goroutine read
    it: between [j] and [q] while the loop variable is shared, [j] itself
    when every iteration has its own. *)
Lemma Save_part_uploads {D : JSONDecoder} (lv : loopvar) (content : slice)
    (filename : string) (sched : list (tid * do_result)) (st : state)
    (info : initResponse) (part : slice) (info' : initResponse)
    (partNum : Z) (r : do_result) :
  slice_wf content ->
  Save_run lv content filename sched = Some st ->
  initRes st = Some info -> 0 < BlkSize info ->
  In (CallUploadPart part info' partNum r) (calls st) ->
  let B := BlkSize info in
  let q := len content / B in
  (exists j, 0 <= j < q /\ part = full_part content B j /\
             j <= partNum <= q /\
             (lv = PerIterationLoopVar -> partNum = j)) \/
  (part = remainder_part content B q /\ partNum = q /\ q * B < len content).
Proof.
  intros Hwf Hrun Hi HB Hin.
  pose proof (inv_calls _ _ _ _ (Save_run_Inv _ _ _ _ _ _ Hwf Hrun Hi HB)) as Hc.
  rewrite Forall_forall in Hc. apply list_elem_of_In in Hin.
  destruct (Hc _ Hin) as [_ Hpart]. exact Hpart.
Qed.



(** C6. Every call of [uploadPart] an execution of [Save] makes, by a
    goroutine for a full part or by [Save] itself for the remainder, is for
    the session [initRes], and the request [uploadPart] builds for it
    carries the bytes of the part as its body and the decimal
    [initRes.BlkSize] as its [Content-Length], whatever the length of the
    part. *)
Theorem uploadPart_Content_Length_is_BlkSize {C : Crypto} {D : JSONDecoder}
    (lv : loopvar) (s : UfileStorage) (content : slice) (filename : string)
    (sched : list (tid * do_result)) (st : state)
    (part : slice) (info : initResponse) (partNum : Z) (r : do_result) :
  Save_run lv content filename sched = Some st ->
  In (CallUploadPart part info partNum r) (calls st) ->
  initRes st = Some info /\
  Body (uploadPart_request s part info partNum) = BytesReader part /\
  Header_Get (Header (uploadPart_request s part info partNum)) "Content-Length"
  = Itoa (BlkSize info).
Proof.
  intros Hrun Hin. split; [|done].
  destruct sched as [|c sched]; [unfold Save_run in Hrun; by simplify_eq/=|].
  destruct (Save_run_calls _ _ _ _ _ Hrun ltac:(done))
    as [(_ & r' & _ & _ & Hc)|(_ & r' & es & Hc & Hall)];
    rewrite Hc in Hin.
  - by destruct Hin.
  - destruct Hin as [?|Hin]; [done|].
    rewrite Forall_forall in Hall. apply list_elem_of_In in Hin.
    exact (Hall _ Hin).
Qed.

Lemma uploadPart_Content_Length_remainder :
  len (remainder_part example_content 26214400 2) = 1 /\
  Header_Get
    (Header (uploadPart_request (C := example_crypto) example_storage
               (remainder_part example_content 26214400 2) example_session 2))
    "Content-Length" = "26214400".
Proof.
  split; [reflexivity|].
  eapply (uploadPart_Content_Length_is_BlkSize (C := example_crypto)
            (D := example_decoder) SharedLoopVar example_storage
            example_content "big.bin" sched_second_completes_first).
  - vm_compute. reflexivity.
  - vm_compute. right. right. right. left. reflexivity.
Defined.

(** ** Executions that miss what the specification asks for *)

(** C1. Payload of 50 MiB + 1 byte, block size 25 MiB: part 0 is
    acknowledged with tag [e0], part 1 with [e1], the remainder (part 2)
    with [e2]; the goroutine of part 1 appends its tag before the
    goroutine of part 0 does.  [Save] returns [nil], and the string it has
    passed to [finishMultipartUpload] is [e1,e0,e2]: the tags of the full
    parts are in the order of completion, not in the order of the part
    numbers.  This does not depend on how the loop variable is captured. *)
Theorem Save_tags_in_completion_order (lv : loopvar) :
  exists st,
    Save_run (D := example_decoder) lv example_content "big.bin"
      sched_second_completes_first = Some st /\
    pc st = M_return None /\
    acknowledged_parts (D := example_decoder) (calls st)
    = [(0, "e0"); (1, "e1"); (2, "e2")] /\
    finish_calls (calls st) = ["e1,e0,e2"] /\
    Save (D := example_decoder) lv example_content "big.bin"
      sched_second_completes_first = Some None.
Proof.
  destruct lv; eexists; (split; [vm_compute; reflexivity|]);
    repeat split; vm_compute; reflexivity.
Qed.

(** C2. Same payload and block size; the loop has started both goroutines
    and has finished, leaving [i = 2], before the goroutines call
    [uploadPart(part, initRes, i)].  The bytes [[0, B)] and [[B, 2B)] are
    both sent as part number 2, the number of the remainder, instead of 0
    and 1. *)
Theorem Save_full_parts_numbered_by_shared_i :
  exists st,
    Save_run (D := example_decoder) SharedLoopVar example_content "big.bin"
      (sched_loop_first (answer 200 "e0" "{}") (answer 200 "e1" "{}")
       ++ sched_to_the_end) = Some st /\
    pc st = M_return None /\
    part_calls (calls st)
    = [(full_part example_content 26214400 0, 2);
       (full_part example_content 26214400 1, 2);
       (remainder_part example_content 26214400 2, 2)].
Proof.
  eexists. split; [vm_compute; reflexivity|].
  split; vm_compute; reflexivity.
Qed.

(** C3. Same payload and block size; the upload of the first full part is
    answered with status 500.  [uploadPart] returns an error, which the
    goroutine sends on [errChan]; nothing receives from [errChan].  The
    remainder is uploaded, [finishMultipartUpload] is called with the tags
    of the other two parts, and [Save] returns [nil]. *)
Theorem Save_finalizes_after_failed_part (lv : loopvar) :
  exists st,
    Save_run (D := example_decoder) lv example_content "big.bin"
      (sched_loop_first rejected (answer 200 "e1" "{}") ++ sched_to_the_end)
    = Some st /\
    map snd (failed_parts (D := example_decoder) (calls st))
    = [Errorf "uploadPart failed, part rejected"] /\
    errChan st = [Errorf "uploadPart failed, part rejected"] /\
    finish_calls (calls st) = ["e1,e2"] /\
    pc st = M_return None /\
    Save (D := example_decoder) lv example_content "big.bin"
      (sched_loop_first rejected (answer 200 "e1" "{}") ++ sched_to_the_end)
    = Some None.
Proof.
  destruct lv; eexists; (split; [vm_compute; reflexivity|]);
    repeat split; vm_compute; reflexivity.
Qed.

(** The upload of the remainder is the path that does report its error:
    [Save] returns it without calling [finishMultipartUpload]. *)
Lemma Save_returns_error_of_remainder {D : JSONDecoder} (lv : loopvar)
    (content : slice) (filename : string) (st : state) (part : slice)
    (info : initResponse) (r : do_result) (err : error) :
  panicked st = None -> pc st = M_remainder part -> initRes st = Some info ->
  uploadPart_response r = Err err ->
  exists st',
    Save_step lv content filename Main r st = Some st' /\
    pc st' = M_return (Some err) /\
    finish_calls (calls st') = finish_calls (calls st).
Proof.
  intros Hp Hpc Hi Hr. unfold Save_step, Save_step_main.
  rewrite Hp, Hpc, Hi. simpl. rewrite Hr.
  eexists. split; [reflexivity|]. split; [reflexivity|]. simpl.
  unfold finish_calls. rewrite omap_app. simpl. apply app_nil_r.
Qed.

(** When the uploads of both full parts fail, the second goroutine blocks
    on [errChan], whose buffer of one holds the error of the first; its
    deferred [wg.Done()] never runs, [wg.Wait()] never returns: no thread
    can move, [Save] does not return, and neither the remainder nor the
    finalization is ever sent. *)
Lemma Save_blocks_after_two_failed_parts (lv : loopvar) :
  exists st,
    Save_run (D := example_decoder) lv example_content "big.bin"
      (sched_loop_first rejected rejected) = Some st /\
    pc st = M_Wait /\ wg st = 1 /\
    length (part_calls (calls st)) = 2%nat /\
    stuck (D := example_decoder) lv example_content "big.bin" st.
Proof.
  destruct lv; eexists; (split; [vm_compute; reflexivity|]);
    (split; [reflexivity|]); (split; [reflexivity|]); (split; [reflexivity|]);
    intros [|[|[|k]]] r; reflexivity.
Qed.

(** ** The configuration reader *)

Lemma Get_loop_descend key cur pre nodes cur' :
  rrconfig.descend cur pre = Some cur' ->
  rrconfig.Get_loop key cur (pre ++ nodes) = rrconfig.Get_loop key cur' nodes.
Proof.
  revert cur. induction pre as [|node pre IH]; intros cur; simpl.
  - by intros [= <-].
  - destruct (cur !! node) as [[| | | | |vv]|]; try done. apply IH.
Qed.

Lemma Get_loop_error key cur nodes e :
  rrconfig.Get_loop key cur nodes = Err e ->
  e = Errorf ("no value for key " +:+ key) /\
  exists pre node rest cur',
    nodes = pre ++ node :: rest /\ rrconfig.descend cur pre = Some cur' /\
    cur' !! node = None.
Proof.
  revert cur. induction nodes as [|node nodes IH]; intros cur; simpl; [done|].
  destruct (cur !! node) as [v|] eqn:Ev.
  - destruct v as [| | | | |vv]; try done.
    intros He. destruct (IH _ He) as (-> & pre & node' & rest & cur' & -> & Hd & Hn).
    split; [done|]. exists (node :: pre), node', rest, cur'.
    simpl. rewrite Ev. done.
  - intros [= <-]. split; [done|]. by exists [], node, nodes, cur.
Qed.

(** C10. When the components [pre] of the key lead through objects to an
    object in which the next component [node] names a value that is not an
    object, [Get] returns that value with a [nil] error, whatever the
    components [rest] that follow: [Get("a.b.c")] on [{"a": {"b": "text"}}]
    returns the string [text].  [Get] returns an error only for a key one
    of whose components is missing from the object reached by the
    components before it. *)
Theorem Get_stops_at_first_non_object (s : rrconfig.JsonConfig) (key : string)
    (pre : list string) (node : string) (rest : list string)
    (cur : gmap string rrconfig.value) (v : rrconfig.value) :
  rrconfig.Split key "."%char = pre ++ node :: rest ->
  rrconfig.descend (rrconfig.m s) pre = Some cur ->
  cur !! node = Some v ->
  rrconfig.is_Map v = false ->
  rrconfig.Get s key = Ok v /\
  rrconfig.Get example_config "a.b.c" = Ok (rrconfig.Str "text") /\
  forall key' e, rrconfig.Get s key' = Err e ->
    e = Errorf ("no value for key " +:+ key') /\
    exists pre' node' rest' cur',
      rrconfig.Split key' "."%char = pre' ++ node' :: rest' /\
      rrconfig.descend (rrconfig.m s) pre' = Some cur' /\ cur' !! node' = None.
Proof.
  intros Hsplit Hd Hv Hm. split; [|split].
  - unfold rrconfig.Get. rewrite Hsplit, (Get_loop_descend _ _ _ _ _ Hd). simpl.
    rewrite Hv. by destruct v.
  - vm_compute. reflexivity.
  - intros key' e He. by apply Get_loop_error.
Qed.

Lemma Get_stops_at_first_non_object_example :
  rrconfig.Get example_config "a.b.c" = Ok (rrconfig.Str "text").
Proof.
  refine (proj1 (Get_stops_at_first_non_object example_config "a.b.c"
                   ["a"] "b" ["c"] {[ "b" := rrconfig.Str "text" ]}
                   (rrconfig.Str "text") _ _ _ _)).
  - reflexivity.
  - vm_compute. reflexivity.
  - vm_compute. reflexivity.
  - reflexivity.
Defined.

(** * Further properties *)

(** ** The requests and their answers *)



Lemma Itoa_inj (n n' : Z) : Itoa n = Itoa n' -> n = n'.
Proof.
  unfold Itoa. intros E. apply DecimalZ.to_int_inj.
  assert (Hnn : forall z, Z.to_int z <> Decimal.Pos Decimal.Nil /\
                          Z.to_int z <> Decimal.Neg Decimal.Nil).
  { intros [|p|p]; simpl; split; try discriminate;
      intros [= Hp]; by apply Unsigned.to_uint_nonnil in Hp. }
  destruct (Hnn n) as [H1 H2]. destruct (Hnn n') as [H1' H2'].
  pose proof (NilZero.isi _ H1 H2) as Hn.
  pose proof (NilZero.isi _ H1' H2') as Hn'.
  rewrite E in Hn. congruence.
Qed.

Lemma string_app_inv_l (a b c : string) : a +:+ b = a +:+ c -> b = c.
Proof.
  induction a as [|x a IH]; [done|].
  change (String x (a +:+ b) = String x (a +:+ c) -> b = c).
  intros [= E]. by apply IH.
Qed.

(** The requests [uploadPart] builds for different part numbers of a
    session differ in their URLs: the part number can be read off the
    request.  Nothing else of the request depends on the part number. *)
Theorem uploadPart_request_part_number {C : Crypto} (s : UfileStorage)
    (content : slice) (info : initResponse) (n n' : Z) :
  (URL (uploadPart_request s content info n)
   = URL (uploadPart_request s content info n') <-> n = n') /\
  Method (uploadPart_request s content info n)
  = Method (uploadPart_request s content info n') /\
  Header (uploadPart_request s content info n)
  = Header (uploadPart_request s content info n') /\
  Body (uploadPart_request s content info n)
  = Body (uploadPart_request s content info n').
Proof.
  split; [|done]. split; [|by intros ->].
  unfold uploadPart_request. simpl. intros E.
  by apply string_app_inv_l, Itoa_inj in E.
Qed.

(** The three request functions of the multipart protocol treat an
    answer alike, and not as [put] does: they read the body before they
    look at the status.  Each returns a result if and only if
    [client.Do] returned a response whose body could be read, whose
    status is 200 and whose body [json.Unmarshal] accepts; the result is
    the decoded value, for [uploadPart] together with the [ETag] header
    of the response, which is not checked.  Otherwise they return the
    error of [client.Do], else the error of reading the body (also for a
    response with status 200, for which [put] returns [nil]), else for a
    status other than 200 the error built from the name of the function
    and the body, else the error of [json.Unmarshal]. *)
Theorem multipart_results_by_answer {D : JSONDecoder} (r : do_result) :
  (forall info,
     initiateMultipartUpload_response r = Ok info <->
     exists resp body, r = DoOK resp /\ ReadAll resp = ReadOK body /\
       StatusCode resp = 200 /\ Unmarshal_initResponse body = Ok info) /\
  (forall res etag,
     uploadPart_response r = Ok (res, etag) <->
     exists resp body, r = DoOK resp /\ ReadAll resp = ReadOK body /\
       StatusCode resp = 200 /\ Unmarshal_uploadResponse body = Ok res /\
       etag = RespHeader_Get resp "ETag") /\
  (forall res,
     finishMultipartUpload_response r = Ok res <->
     exists resp body, r = DoOK resp /\ ReadAll resp = ReadOK body /\
       StatusCode resp = 200 /\ Unmarshal_finishResponse body = Ok res) /\
  (forall msg,
     r = DoFail msg ->
     initiateMultipartUpload_response r = Err (TransportError msg) /\
     uploadPart_response r = Err (TransportError msg) /\
     finishMultipartUpload_response r = Err (TransportError msg)) /\
  (forall resp msg,
     r = DoOK resp -> ReadAll resp = ReadFail msg ->
     initiateMultipartUpload_response r = Err (ReadError msg) /\
     uploadPart_response r = Err (ReadError msg) /\
     finishMultipartUpload_response r = Err (ReadError msg) /\
     (StatusCode resp = 200 -> put_response r = None)) /\
  (forall resp body,
     r = DoOK resp -> ReadAll resp = ReadOK body -> StatusCode resp <> 200 ->
     initiateMultipartUpload_response r
     = Err (Errorf ("initiateMultipartUpload failed, " +:+ body)) /\
     uploadPart_response r = Err (Errorf ("uploadPart failed, " +:+ body)) /\
     finishMultipartUpload_response r
     = Err (Errorf ("finishMultipartUpload failed, " +:+ body))) /\
  (forall resp body,
     r = DoOK resp -> ReadAll resp = ReadOK body -> StatusCode resp = 200 ->
     (forall err, Unmarshal_initResponse body = Err err ->
                  initiateMultipartUpload_response r = Err err) /\
     (forall err, Unmarshal_uploadResponse body = Err err ->
                  uploadPart_response r = Err err) /\
     (forall err, Unmarshal_finishResponse body = Err err ->
                  finishMultipartUpload_response r = Err err)).
Proof.
  unfold initiateMultipartUpload_response, uploadPart_response,
    finishMultipartUpload_response, put_response.
  destruct r as [msg|resp]; [answer_cases|].
  destruct (ReadAll resp) as [body|msg] eqn:Er; [|answer_cases].
  destruct (Z.eqb_spec (StatusCode resp) 200) as [E|E]; simpl; [|answer_cases].
  destruct (Unmarshal_uploadResponse body) as [res'|err'] eqn:Eu; answer_cases.
Qed.

(** ** [Save], whatever the block size *)

Section General.
Context {D : JSONDecoder} (lv : loopvar) (content : slice) (filename : string).

Lemma finish_calls_app l1 l2 :
  finish_calls (l1 ++ l2) = finish_calls l1 ++ finish_calls l2.
Proof. unfold finish_calls. apply omap_app. Qed.

Lemma Save_inv_init : Save_inv Save_init.
Proof. constructor; simpl; try done. lia. Qed.

Lemma Save_inv_step_main r st st' :
  Save_inv st ->
  Save_step_main content filename r st = Some st' ->
  Save_inv st'.
Proof.
  intros [Hw He Hj Hc Hr] Hs. unfold Save_step_main in Hs.
  destruct (pc st) eqn:Epc.
  - rewrite (He eq_refl) in Hw. simpl in Hw.
    destruct (len content >? MAX_PUT_SIZE).
    + destruct (initiateMultipartUpload_response r) as [info|err] eqn:Er.
      * destruct (int_quo _ _); simplify_eq.
        -- constructor; simpl; rewrite ?Epc, ?(He eq_refl); try done.
           ++ unfold errChan_cap. lia.
           ++ by rewrite finish_calls_app, Hr.
        -- constructor; simpl; rewrite ?Epc, ?(He eq_refl); try done.
           by rewrite finish_calls_app, Hr.
      * simplify_eq. constructor; simpl; rewrite ?(He eq_refl); try done.
        exists (calls st), (CallInitiate filename r). simpl. by rewrite Er.
    + simplify_eq. constructor; simpl; rewrite ?(He eq_refl); try done.
      by exists (calls st), (CallPut content filename r).
  - destruct (loop_i st <? num st); simplify_eq.
    + constructor; simpl; try done.
      rewrite filter_app, length_app. simpl. lia.
    + constructor; simpl; try done.
  - simplify_eq. constructor; simpl; try done.
  - destruct (initRes st) as [info|]; [|done].
    destruct (Z.eqb_spec (wg st) 0); [|done].
    destruct (_ <? _); [destruct (slice_from _ _)|]; simplify_eq;
      constructor; simpl; rewrite ?Epc; try done.
  - destruct (initRes st) as [info|]; [|done]. simpl in Hs.
    destruct (uploadPart_response r) as [[res etag]|err] eqn:Er; simplify_eq.
    + constructor; simpl; try done. by rewrite finish_calls_app, Hr.
    + constructor; simpl; try done.
      exists (calls st), (CallUploadPart part info (num st) r). simpl.
      by rewrite Er.
  - destruct (initRes st) as [info|]; [|done]. simpl in Hs.
    destruct (finishMultipartUpload_response r) as [res|err] eqn:Er; simplify_eq.
    + constructor; simpl; try done.
      exists (calls st), (CallFinish info (Join (etags st) ",") r). simpl.
      by rewrite Er.
    + constructor; simpl; try done.
      exists (calls st), (CallFinish info (Join (etags st) ",") r). simpl.
      by rewrite Er.
  - done.
Qed.

Lemma Save_inv_step_go k r st st' :
  Save_inv st ->
  Save_step_go lv content k r st = Some st' ->
  Save_inv st'.
Proof.
  intros [Hw He Hj Hc Hr] Hs. unfold Save_step_go in Hs.
  destruct (goroutines st !! k) as [g|] eqn:Ek; [|done].
  destruct (initRes st) as [info|]; [|done].
  destruct (goroutine_done g) eqn:Ed; [by destruct g|].
  assert (Hwg : wg st <> 0).
  { intros Hz. rewrite Hz in Hw.
    assert (goroutine_done g = true) by (eapply all_done; eauto; lia).
    congruence. }
  assert (Hpc : in_loop_or_Wait st).
  { unfold in_loop_or_Wait. destruct (pc st) eqn:Epc; try done.
    by rewrite (He eq_refl) in Ek. }
  unfold in_loop_or_Wait in Hpc.
  assert (Hr' : finish_calls (calls st) = []) by (by destruct (pc st)).
  assert (He' : pc st = M_entry -> False) by (intros E; by rewrite E in Hpc).
  pose proof (fun g' => wg_insert_running (goroutines st) k g g' Ek Ed) as Hrun.
  pose proof (fun g' => wg_insert_done (goroutines st) k g g' Ek Ed) as Hdone.
  destruct g as [j|j part|j err|j etag|j]; simpl in Hs.
  - destruct (slice_range _ _ _) as [part|p]; simplify_eq.
    + constructor; simpl.
      * by rewrite Hrun.
      * intros E. by destruct (He' E).
      * by destruct (pc st).
      * done.
      * by destruct (pc st).
    + by constructor.
  - assert (Hr'' : finish_calls
              (calls st ++ [CallUploadPart part info (closure_i lv j st) r]) = []).
    { by rewrite finish_calls_app, Hr'. }
    destruct (uploadPart_response r) as [[res etag]|err]; simplify_eq.
    + constructor; simpl.
      * by rewrite Hrun.
      * intros E. by destruct (He' E).
      * by destruct (pc st).
      * done.
      * by destruct (pc st).
    + constructor; simpl.
      * by rewrite Hrun.
      * intros E. by destruct (He' E).
      * by destruct (pc st).
      * done.
      * by destruct (pc st).
  - destruct (Nat.ltb_spec (length (errChan st)) errChan_cap); simplify_eq.
    constructor; simpl.
    + specialize (Hdone (G_done j) eq_refl). lia.
    + intros E. by destruct (He' E).
    + by destruct (pc st).
    + rewrite length_app. simpl. lia.
    + by destruct (pc st).
  - simplify_eq. constructor; simpl.
    + specialize (Hdone (G_done j) eq_refl). lia.
    + intros E. by destruct (He' E).
    + by destruct (pc st).
    + done.
    + by destruct (pc st).
  - done.
Qed.

Lemma Save_inv_step t r st st' :
  Save_inv st ->
  Save_step lv content filename t r st = Some st' ->
  Save_inv st'.
Proof.
  unfold Save_step. destruct (panicked st); [done|].
  destruct t; [apply Save_inv_step_main | apply Save_inv_step_go].
Qed.

Lemma Save_inv_exec sched st st' :
  Save_inv st ->
  Save_exec lv content filename sched st = Some st' ->
  Save_inv st'.
Proof.
  revert st. induction sched as [|[t r] sched IH]; intros st HI; simpl.
  - by intros [= <-].
  - destruct (Save_step lv content filename t r st) as [st1|] eqn:Es; [|done].
    apply IH. by eapply Save_inv_step.
Qed.

Lemma Save_run_inv sched st :
  Save_run lv content filename sched = Some st -> Save_inv st.
Proof. apply Save_inv_exec, Save_inv_init. Qed.

(** Once [Save] has returned, nothing moves any more. *)
Lemma Save_inv_returned_stuck st err :
  Save_inv st -> pc st = M_return err -> stuck lv content filename st.
Proof.
  intros [Hw _ Hj _ _] Hpc t r. unfold Save_step.
  destruct (panicked st); [done|]. destruct t as [|k].
  - unfold Save_step_main. by rewrite Hpc.
  - unfold Save_step_go. rewrite Hpc in Hj.
    destruct (goroutines st !! k) as [g|] eqn:Ek; [|done].
    assert (goroutine_done g = true) by (eapply all_done; eauto; lia).
    destruct g; try done. by destruct (initRes st).
Qed.
End General.

(** When [Save] has returned, what it returned is what its last call
    returned: the error of [put], of [initiateMultipartUpload], of the
    [uploadPart] of the remainder or of [finishMultipartUpload], and
    [nil] only after a [put] or a [finishMultipartUpload] that returned
    no error.  By then every goroutine has returned, and no thread can
    move. *)
Theorem Save_returns_what_its_last_call_returned {D : JSONDecoder}
    (lv : loopvar) (content : slice) (filename : string)
    (sched : list (tid * do_result)) (err : option error) :
  Save lv content filename sched = Some err ->
  exists st es e,
    Save_run lv content filename sched = Some st /\
    calls st = es ++ [e] /\ event_error e = err /\
    (err = None -> is_final_call e = true) /\
    Forall (fun g => goroutine_done g = true) (goroutines st) /\
    stuck lv content filename st.
Proof.
  unfold Save. destruct (Save_run lv content filename sched) as [st|] eqn:Hrun; [|done].
  destruct (pc st) eqn:Hpc; try done. intros [= <-].
  pose proof (Save_run_inv _ _ _ _ _ Hrun) as HI.
  pose proof (si_return _ HI) as Hr. rewrite Hpc in Hr.
  destruct Hr as (es & e & Hc & _ & He & Hf).
  exists st, es, e. repeat split; try done.
  - apply Forall_lookup. intros k g Hk.
    pose proof (si_wg _ HI) as Hw. pose proof (si_joined _ HI) as Hj.
    rewrite Hpc in Hj. eapply all_done; eauto. lia.
  - by eapply Save_inv_returned_stuck.
Qed.

Lemma Save_returns_what_its_last_call_returned_example :
  exists st es e,
    Save_run (D := example_decoder) SharedLoopVar example_content "big.bin"
      sched_second_completes_first = Some st /\
    calls st = es ++ [e] /\
    event_error (D := example_decoder) e = None /\ is_final_call e = true.
Proof.
  destruct (Save_returns_what_its_last_call_returned (D := example_decoder)
              SharedLoopVar example_content "big.bin"
              sched_second_completes_first None
              ltac:(vm_compute; reflexivity))
    as (st & es & e & Hrun & Hc & He & Hf & _).
  exists st, es, e.
  split; [exact Hrun|]. split; [exact Hc|]. split; [exact He|].
  exact (Hf eq_refl).
Defined.

(** [Save] calls [finishMultipartUpload] at most once, as its last call:
    no call follows it, and what it returns is what [Save] returns. *)
Theorem Save_finalizes_at_most_once {D : JSONDecoder}
    (lv : loopvar) (content : slice) (filename : string)
    (sched : list (tid * do_result)) (st : state) :
  Save_run lv content filename sched = Some st ->
  (length (finish_calls (calls st)) <= 1)%nat /\
  forall tags,
    In tags (finish_calls (calls st)) ->
    exists es info r,
      calls st = es ++ [CallFinish info tags r] /\
      finish_calls es = [] /\
      Save lv content filename sched = Some (event_error (CallFinish info tags r)).
Proof.
  intros Hrun. pose proof (Save_run_inv _ _ _ _ _ Hrun) as HI.
  pose proof (si_return _ HI) as Hr.
  destruct (pc st) eqn:Hpc; try (rewrite Hr; split; [simpl; lia | done]).
  destruct Hr as (es & e & Hc & Hes & He & _).
  rewrite Hc, finish_calls_app, Hes. simpl.
  destruct e as [c f r|f r|p i n r|info tags r]; simpl; try (split; [lia | done]).
  split; [lia|]. intros tags' [<-|[]].
  exists es, info, r. repeat split; try done.
  unfold Save. rewrite Hrun, Hpc. f_equal. symmetry. exact He.
Qed.

Lemma Save_finalizes_at_most_once_example :
  exists st,
    Save_run (D := example_decoder) SharedLoopVar example_content "big.bin"
      sched_second_completes_first = Some st /\
    (length (finish_calls (calls st)) <= 1)%nat.
Proof.
  eexists. split; [vm_compute; reflexivity|].
  refine (proj1 (Save_finalizes_at_most_once (D := example_decoder)
                   SharedLoopVar example_content "big.bin"
                   sched_second_completes_first _ _)).
  vm_compute. reflexivity.
Defined.

(** When [initiateMultipartUpload] returns an error, [Save] returns it at
    once: the execution has this one step and this one call, and no part
    is uploaded. *)
Theorem Save_stops_when_initiate_fails {D : JSONDecoder}
    (lv : loopvar) (content : slice) (filename : string)
    (r : do_result) (err : error) (sched : list (tid * do_result)) (st : state) :
  MAX_PUT_SIZE < len content ->
  initiateMultipartUpload_response r = Err err ->
  Save_run lv content filename ((Main, r) :: sched) = Some st ->
  sched = [] /\ calls st = [CallInitiate filename r] /\
  Save lv content filename [(Main, r)] = Some (Some err).
Proof.
  intros Hlen Hr Hrun. unfold Save. unfold Save_run in *. simpl in *.
  destruct (Save_step lv content filename Main r Save_init) as [st1|] eqn:Es; [|done].
  apply Save_step_entry in Es
    as [_ [[? _]|[_ [(err' & Hr' & ->)|(info1 & Hr' & _)]]]]; [lia| |congruence].
  apply Save_exec_stuck in Hrun as [-> ->]; [|by eapply returned_stuck].
  simpl. split; [done|]. split; [done|]. congruence.
Qed.

Lemma Save_stops_when_initiate_fails_example :
  Save (D := example_decoder) SharedLoopVar example_content "big.bin"
    [(Main, rejected)]
  = Some (Some (Errorf "initiateMultipartUpload failed, part rejected")).
Proof.
  refine (proj2 (proj2
    (Save_stops_when_initiate_fails (D := example_decoder) SharedLoopVar
       example_content "big.bin" rejected
       (Errorf "initiateMultipartUpload failed, part rejected") [] _ _ _ _))).
  - reflexivity.
  - reflexivity.
  - vm_compute. reflexivity.
Defined.

(** The session of the multipart branch is what
    [initiateMultipartUpload] made of the first answer, and every call
    that follows, part upload or finalization, is for this session:
    [Save] sends the parts to the bucket and key the service named,
    which it does not compare with its own. *)
Theorem Save_uses_session_of_initiate {D : JSONDecoder} (lv : loopvar)
    (content : slice) (filename : string) (sched : list (tid * do_result))
    (st : state) (info : initResponse) :
  Save_run lv content filename sched = Some st ->
  initRes st = Some info ->
  exists r sched' es,
    sched = (Main, r) :: sched' /\
    initiateMultipartUpload_response r = Ok info /\
    calls st = CallInitiate filename r :: es /\
    Forall (session_call (Some info)) es.
Proof.
  intros Hrun Hi. unfold Save_run in Hrun.
  destruct sched as [|[t r] sched]; simpl in Hrun; [by simplify_eq|].
  destruct (Save_step lv content filename t r Save_init) as [st1|] eqn:Es; [|done].
  apply Save_step_entry in Es
    as [-> [[Hlen ->]|[Hlen [(err & _ & ->)|(info1 & Hr & [(p & Hq & ->)|(n & Hq & ->)])]]]].
  - apply Save_exec_stuck in Hrun as [-> ->]; [done|].
    by eapply returned_stuck.
  - apply Save_exec_stuck in Hrun as [-> ->]; [done|].
    by eapply returned_stuck.
  - apply Save_exec_stuck in Hrun as [-> ->]; [|by eapply panicked_stuck].
    simpl in Hi. simplify_eq. by exists r, [], [].
  - destruct (fun Hpc => Save_exec_calls _ _ _ _ _ _ Hpc Hrun)
      as (Hi' & es & Hes & Hall); [done|].
    simpl in Hi', Hes, Hall. rewrite Hi in Hi'. simplify_eq.
    by exists r, sched, es.
Qed.

Lemma Save_uses_session_of_initiate_example :
  exists st es,
    Save_run (D := example_decoder) SharedLoopVar example_content "big.bin"
      sched_second_completes_first = Some st /\
    calls st
    = CallInitiate "big.bin" (answer 200 EmptyString example_init_doc) :: es /\
    Forall (session_call (Some example_session)) es.
Proof.
  destruct (Save_uses_session_of_initiate (D := example_decoder) SharedLoopVar
              example_content "big.bin" sched_second_completes_first _
              example_session
              ltac:(vm_compute; reflexivity) ltac:(reflexivity))
    as (r & sched' & es & Hs & _ & Hc & Hes).
  injection Hs as <- _.
  eexists _, es. split; [vm_compute; reflexivity|]. split; [exact Hc | exact Hes].
Defined.

(** ** The part uploads of the multipart branch *)

Section Parts.
Context {D : JSONDecoder} (lv : loopvar) (content : slice) (filename : string)
        (info : initResponse).
Hypothesis content_wf : slice_wf content.
Hypothesis BlkSize_pos : 0 < BlkSize info.

Local Abbreviation B := (BlkSize info).
Local Abbreviation q := (len content / BlkSize info).

Lemma full_part_offsets (js : list Z) :
  off <$> (full_part content B <$> js) = (fun j => off content + j * B) <$> js.
Proof. by rewrite <- list_fmap_compose. Qed.

Lemma offset_inj : Inj (=) (=) (fun j => off content + j * B).
Proof. intros j1 j2 Hj. nia. Qed.

(** The indices of the goroutines that have issued their upload are
    distinct and below the number of goroutines started. *)
Lemma called_indices (gs : list goroutine) :
  (forall k g, gs !! k = Some g -> goroutine_j g = Z.of_nat k) ->
  NoDup (goroutine_j <$> filter (fun g => goroutine_called g = true) gs) /\
  forall j, j ∈ goroutine_j <$> filter (fun g => goroutine_called g = true) gs ->
            0 <= j < Z.of_nat (length gs).
Proof.
  intros Hj.
  assert (Hsub : (goroutine_j <$> filter (fun g => goroutine_called g = true) gs)
                 `sublist_of` seqZ 0 (Z.of_nat (length gs))).
  { rewrite <- (goroutine_js gs Hj). apply fmap_sublist, sublist_filter. }
  split.
  - eapply sublist_NoDup; [apply NoDup_seqZ | exact Hsub].
  - intros j Hin. eapply elem_of_sublist in Hin; [|exact Hsub].
    apply elem_of_seqZ in Hin. lia.
Qed.

Lemma Save_part_offsets_distinct sched st :
  Save_run lv content filename sched = Some st ->
  initRes st = Some info ->
  NoDup (off <$> (part_calls (calls st)).*1).
Proof.
  intros Hrun Hi.
  destruct (Save_run_Inv _ _ _ _ _ _ content_wf Hrun Hi BlkSize_pos)
    as [_ _ Hn Hg Hl _ _ (fulls & rem & E1 & E2 & E3)].
  destruct (called_indices (goroutines st)) as [Hnd Hrange].
  { intros k g Hk. apply (Hg k g Hk). }
  rewrite E1, fmap_app, fmap_app, E2.
  rewrite (list_fmap_compose goroutine_j (full_part content B)), full_part_offsets.
  apply NoDup_app. split; [|split].
  - pose proof offset_inj as Hinj. apply (NoDup_fmap_2 _), Hnd.
  - intros o Ho Hrem. apply list_elem_of_fmap in Ho as (j & -> & Hj).
    apply Hrange in Hj. unfold loop_ok in Hl.
    destruct (pc st); subst rem; try (by apply not_elem_of_nil in Hrem).
    all: unfold remainder_calls in Hrem;
      destruct (_ <? _); simpl in Hrem; [|by apply not_elem_of_nil in Hrem];
      apply list_elem_of_singleton in Hrem; simpl in Hrem;
      rewrite <- Hn in Hrem; destruct_and!; nia.
  - destruct (pc st); subst rem; try apply NoDup_nil_2.
    all: unfold remainder_calls; destruct (_ <? _); simpl;
      [apply NoDup_singleton | apply NoDup_nil_2].
Qed.
End Parts.

Section PartShapes.
Context {D : JSONDecoder} (lv : loopvar) (content : slice) (filename : string)
        (info : initResponse).
Hypothesis content_wf : slice_wf content.
Hypothesis BlkSize_pos : 0 < BlkSize info.

Lemma part_calls_elem (p : slice * Z) (l : list event) :
  p ∈ part_calls l -> exists i r, CallUploadPart p.1 i p.2 r ∈ l.
Proof.
  intros Hp. apply list_elem_of_omap in Hp as (e & He & Hpe).
  destruct e; simpl in Hpe; simplify_eq; simpl; eauto.
Qed.

(** The shape of the part uploads of the log. *)
Lemma part_calls_shape st (p : slice * Z) :
  Inv lv content info st -> p ∈ part_calls (calls st) ->
  let B := BlkSize info in
  let q := len content / B in
  (exists j, 0 <= j < q /\ p.1 = full_part content B j /\ j <= p.2 <= q /\
             (lv = PerIterationLoopVar -> p.2 = j)) \/
  (p.1 = remainder_part content B q /\ p.2 = q /\ q * B < len content).
Proof.
  intros HI Hp. apply part_calls_elem in Hp as (i & r & He).
  pose proof (inv_calls _ _ _ _ HI) as Hc. rewrite Forall_forall in Hc.
  destruct (Hc _ He) as [_ Hs]. exact Hs.
Qed.

Lemma part_holds_offset st (p : slice * Z) k :
  Inv lv content info st -> p ∈ part_calls (calls st) ->
  part_holds content p.1 k ->
  0 <= k < len content /\ 0 < len p.1 /\
  off p.1 = off content + k / BlkSize info * BlkSize info.
Proof.
  intros HI Hp Hk. pose proof (q_bounds content info content_wf BlkSize_pos) as (? & ? & ? & ?).
  unfold part_holds in Hk.
  destruct (part_calls_shape _ _ HI Hp) as [(j & Hj & E & _)|(E & _ & Hlt)];
    rewrite E in *; simpl in *.
  - assert (k / BlkSize info = j) as ->
      by (symmetry; apply Z.div_unique_pos with (r := k - j * BlkSize info); lia).
    repeat split; nia.
  - assert (k / BlkSize info = len content / BlkSize info) as ->
      by (symmetry; apply Z.div_unique_pos
                     with (r := k - len content / BlkSize info * BlkSize info);
          pose proof (Z.mul_succ_div_gt (len content) (BlkSize info)); lia).
    repeat split; lia.
Qed.
End PartShapes.

(** In the multipart branch of [Save], for a session with a positive
    block size: no byte of the payload is uploaded twice (two part
    uploads of the log that hold the same byte are one and the same
    upload), every part upload sends at least one byte and bytes of the
    payload only, and once [Save] is past its part uploads every byte of
    the payload has been uploaded. *)
Theorem Save_uploads_each_byte_once {D : JSONDecoder} (lv : loopvar)
    (content : slice) (filename : string) (sched : list (tid * do_result))
    (st : state) (info : initResponse) :
  slice_wf content ->
  Save_run lv content filename sched = Some st ->
  initRes st = Some info -> 0 < BlkSize info ->
  (forall i1 i2 p1 p2 k,
     part_calls (calls st) !! i1 = Some p1 ->
     part_calls (calls st) !! i2 = Some p2 ->
     part_holds content p1.1 k -> part_holds content p2.1 k -> i1 = i2) /\
  (forall i p,
     part_calls (calls st) !! i = Some p ->
     0 < len p.1 /\
     forall k, part_holds content p.1 k -> 0 <= k < len content) /\
  (past_parts st ->
   forall k, 0 <= k < len content ->
     exists i p, part_calls (calls st) !! i = Some p /\
                 part_holds content p.1 k).
Proof.
  intros Hwf Hrun Hi HB.
  pose proof (Save_run_Inv _ _ _ _ _ _ Hwf Hrun Hi HB) as HI.
  pose proof (q_bounds content info Hwf HB) as (Hq0 & Hq1 & Hq2 & Hq3).
  split; [|split].
  - intros i1 i2 p1 p2 k H1 H2 Hk1 Hk2.
    pose proof (Save_part_offsets_distinct lv content filename info Hwf HB
                  _ _ Hrun Hi) as Hnd.
    eapply NoDup_lookup; [exact Hnd | |].
    + rewrite !list_lookup_fmap, H1. reflexivity.
    + rewrite !list_lookup_fmap, H2. simpl.
      apply list_elem_of_lookup_2 in H1, H2.
      destruct (part_holds_offset lv content info Hwf HB _ _ _ HI H1 Hk1) as (_ & _ & ->).
      destruct (part_holds_offset lv content info Hwf HB _ _ _ HI H2 Hk2) as (_ & _ & ->).
      reflexivity.
  - intros i p Hp. apply list_elem_of_lookup_2 in Hp. split.
    + destruct (part_calls_shape lv content info _ _ HI Hp)
        as [(j & Hj & -> & _)|(-> & _ & Hlt)]; simpl; lia.
    + intros k Hk.
      by destruct (part_holds_offset lv content info Hwf HB _ _ _ HI Hp Hk).
  - intros Hpast k Hk.
    destruct (Save_parts_uploaded lv content filename info sched st
                Hwf Hrun Hi HB Hpast) as (fulls & Hcalls & Hfulls).
    assert (Hj : 0 <= k / BlkSize info <= len content / BlkSize info).
    { split; [apply Z.div_pos; lia | apply Z.div_le_mono; lia]. }
    pose proof (Z.mul_div_le k (BlkSize info) HB).
    pose proof (Z.mul_succ_div_gt k (BlkSize info) HB).
    destruct (decide (k / BlkSize info < len content / BlkSize info)) as [Hlt|Hge].
    + assert (Hin : full_part content (BlkSize info) (k / BlkSize info) ∈ fulls.*1).
      { rewrite Hfulls. apply list_elem_of_fmap. eexists. split; [reflexivity|].
        apply elem_of_seqZ. lia. }
      apply list_elem_of_fmap in Hin as (p & Hp1 & Hp).
      assert (Hp' : p ∈ part_calls (calls st))
        by (rewrite Hcalls; apply elem_of_app; by left).
      apply list_elem_of_lookup_1 in Hp' as (i & Hi').
      exists i, p. split; [done|]. rewrite <- Hp1. unfold part_holds. simpl. lia.
    + assert (Hq : k / BlkSize info = len content / BlkSize info) by lia.
      assert (Hrem : remainder_calls content info
                     = [(remainder_part content (BlkSize info)
                           (len content / BlkSize info),
                         len content / BlkSize info)]).
      { unfold remainder_calls.
        destruct (Z.ltb_spec (len content / BlkSize info * BlkSize info) (len content));
          [done | lia]. }
      assert (Hp' : (remainder_part content (BlkSize info)
                       (len content / BlkSize info),
                     len content / BlkSize info) ∈ part_calls (calls st)).
      { rewrite Hcalls, Hrem. apply elem_of_app. right. apply list_elem_of_singleton.
        done. }
      apply list_elem_of_lookup_1 in Hp' as (i & Hi').
      eexists i, _. split; [exact Hi'|]. unfold part_holds. simpl. lia.
Qed.

Lemma Save_uploads_each_byte_once_example :
  exists st,
    Save_run (D := example_decoder) SharedLoopVar example_content "big.bin"
      sched_second_completes_first = Some st /\
    exists i p,
      part_calls (calls st) !! i = Some p /\
      part_holds example_content p.1 52428800.
Proof.
  eexists. split; [vm_compute; reflexivity|].
  destruct (Save_uploads_each_byte_once (D := example_decoder) SharedLoopVar
              example_content "big.bin" sched_second_completes_first _
              example_session
              ltac:(vm_compute; intuition discriminate)
              ltac:(vm_compute; reflexivity) ltac:(reflexivity)
              ltac:(reflexivity))
    as (_ & _ & Hall).
  exact (Hall I 52428800 ltac:(vm_compute; intuition discriminate)).
Defined.

(** When every iteration of the loop has its own [i] (Go 1.22), every
    part upload is numbered by the place of its part in the payload:
    the part sent as number [n] starts at offset [n * BlkSize].  No part
    number is sent twice, and once [Save] is past its part uploads the
    part numbers sent are [0], ..., [N-1] for the [N] uploads made. *)
Theorem Save_per_iteration_part_numbers {D : JSONDecoder}
    (content : slice) (filename : string) (sched : list (tid * do_result))
    (st : state) (info : initResponse) :
  slice_wf content ->
  Save_run PerIterationLoopVar content filename sched = Some st ->
  initRes st = Some info -> 0 < BlkSize info ->
  (forall part partNum,
     In (part, partNum) (part_calls (calls st)) ->
     off part = off content + partNum * BlkSize info) /\
  NoDup (part_calls (calls st)).*2 /\
  (past_parts st ->
   (part_calls (calls st)).*2
   ≡ₚ seqZ 0 (Z.of_nat (length (part_calls (calls st))))).
Proof.
  intros Hwf Hrun Hi HB.
  pose proof (Save_run_Inv _ _ _ _ _ _ Hwf Hrun Hi HB) as HI.
  pose proof (q_bounds content info Hwf HB) as (Hq0 & Hq1 & Hq2 & Hq3).
  assert (Hnum : forall p, p ∈ part_calls (calls st) ->
                   off p.1 = off content + p.2 * BlkSize info).
  { intros p Hp.
    destruct (part_calls_shape _ content info _ _ HI Hp)
      as [(j & Hj & E & _ & Hn)|(E & E2 & _)]; rewrite E; simpl.
    - by rewrite (Hn eq_refl).
    - by rewrite E2. }
  assert (Hoffs : off <$> (part_calls (calls st)).*1
                  = (fun n => off content + n * BlkSize info)
                      <$> (part_calls (calls st)).*2).
  { rewrite <- !list_fmap_compose. apply Forall_fmap_ext, Forall_forall.
    intros p Hp. simpl. by apply Hnum. }
  split; [|split].
  - intros part partNum Hin. apply list_elem_of_In in Hin.
    exact (Hnum _ Hin).
  - eapply NoDup_fmap_1. rewrite <- Hoffs.
    by eapply Save_part_offsets_distinct.
  - intros Hpast.
    destruct (Save_parts_uploaded _ content filename info sched st
                Hwf Hrun Hi HB Hpast) as (fulls & Hcalls & Hfulls).
    set (h := fun p : slice => (off p - off content) / BlkSize info).
    assert (Hf2 : fulls.*2 = h <$> fulls.*1).
    { rewrite <- list_fmap_compose. apply Forall_fmap_ext, Forall_forall.
      intros p Hp. simpl. unfold h. rewrite Hnum.
      - replace (off content + p.2 * BlkSize info - off content)
          with (p.2 * BlkSize info) by lia.
        symmetry. apply Z.div_mul. lia.
      - rewrite Hcalls. apply elem_of_app. by left. }
    assert (Hfulls2 : fulls.*2 ≡ₚ seqZ 0 (len content / BlkSize info)).
    { rewrite Hf2, Hfulls, <- list_fmap_compose.
      rewrite <- (list_fmap_id (seqZ 0 _)) at 2.
      erewrite (proj1 (Forall_fmap_ext _ id _)); [done|].
      apply Forall_forall. intros j _. unfold h. simpl.
      replace (off content + j * BlkSize info - off content)
        with (j * BlkSize info) by lia.
      apply Z.div_mul. lia. }
    assert (Hlen : length fulls = Z.to_nat (len content / BlkSize info)).
    { rewrite <- (length_fmap snd), Hfulls2. apply length_seqZ. }
    rewrite Hcalls, fmap_app, length_app, Hfulls2, Hlen.
    unfold remainder_calls. destruct (_ <? _); simpl.
    + replace (Z.of_nat (Z.to_nat (len content / BlkSize info) + 1))
        with (len content / BlkSize info + 1) by lia.
      rewrite seqZ_app by lia. simpl. done.
    + rewrite app_nil_r, Nat.add_0_r, Z2Nat.id by lia. done.
Qed.

Lemma Save_per_iteration_part_numbers_example :
  exists st,
    Save_run (D := example_decoder) PerIterationLoopVar example_content
      "big.bin" (sched_loop_first (answer 200 "e0" "{}") (answer 200 "e1" "{}")
                 ++ sched_to_the_end) = Some st /\
    (part_calls (calls st)).*2 ≡ₚ seqZ 0 3.
Proof.
  eexists. split; [vm_compute; reflexivity|].
  destruct (Save_per_iteration_part_numbers (D := example_decoder)
              example_content "big.bin"
              (sched_loop_first (answer 200 "e0" "{}") (answer 200 "e1" "{}")
               ++ sched_to_the_end) _ example_session
              ltac:(vm_compute; intuition discriminate)
              ltac:(vm_compute; reflexivity) ltac:(reflexivity)
              ltac:(reflexivity))
    as (_ & _ & Hperm).
  exact (Hperm I).
Defined.

Lemma session_calls_length {D : JSONDecoder} (i : option initResponse) (es : list event) :
  Forall (session_call i) es ->
  length es = (length (part_calls es) + length (finish_calls es))%nat.
Proof.
  induction 1 as [|e es He _ IH]; [done|].
  destruct e; simpl in *; try done; lia.
Qed.

(** The multipart branch of [Save], for a session with a positive block
    size [B], takes at most [5 * (len(content)/B) + 5] steps and issues
    at most [len(content)/B + 3] requests: the initiation first, at most
    [len(content)/B + 1] part uploads and at most one finalization. *)
Theorem Save_requests_bounded {D : JSONDecoder} (lv : loopvar)
    (content : slice) (filename : string) (sched : list (tid * do_result))
    (st : state) (info : initResponse) :
  slice_wf content ->
  Save_run lv content filename sched = Some st ->
  initRes st = Some info -> 0 < BlkSize info ->
  let q := len content / BlkSize info in
  Z.of_nat (length sched) <= 5 * q + 5 /\
  (exists r es, calls st = CallInitiate filename r :: es /\
                part_calls (calls st) = part_calls es /\
                finish_calls (calls st) = finish_calls es /\
                length es
                = (length (part_calls es) + length (finish_calls es))%nat) /\
  Z.of_nat (length (part_calls (calls st))) <= q + 1 /\
  (length (finish_calls (calls st)) <= 1)%nat /\
  Z.of_nat (length (calls st)) <= q + 3.
Proof.
  intros Hwf Hrun Hi HB q.
  pose proof (Save_run_Inv _ _ _ _ _ _ Hwf Hrun Hi HB) as HI.
  pose proof (Save_run_inv _ _ _ _ _ Hrun) as HS.
  destruct (Save_returns_unless_two_parts_fail _ _ _ _ _ _ Hwf Hrun Hi HB)
    as [Hsteps _].
  assert (Hne : sched <> []).
  { intros ->. unfold Save_run in Hrun. simpl in Hrun. by simplify_eq. }
  destruct (Save_run_calls _ _ _ _ _ Hrun Hne)
    as [(_ & r & _ & _ & Hc)|(_ & r & es & Hc & Hes)].
  { pose proof (inv_calls _ _ _ _ HI) as Hev. rewrite Hc in Hev.
    by apply Forall_cons in Hev as [[] _]. }
  assert (Hparts : Z.of_nat (length (part_calls (calls st))) <= q + 1).
  { destruct (inv_parts _ _ _ _ HI) as (fulls & rem & E1 & E2 & E3).
    rewrite E1, length_app, <- (length_fmap fst fulls), E2, length_fmap.
    pose proof (length_filter (fun g => goroutine_called g = true) (goroutines st)).
    pose proof (inv_loop _ _ _ _ HI) as Hl. unfold loop_ok in Hl.
    pose proof (inv_num _ _ _ _ HI) as Hn. fold q in Hn.
    assert (length rem <= 1)%nat.
    { subst rem. unfold remainder_calls.
      destruct (pc st); simpl; try lia; destruct (_ <? _); simpl; lia. }
    destruct (pc st); try done; lia. }
  assert (Hfin : (length (finish_calls (calls st)) <= 1)%nat).
  { pose proof (si_return _ HS) as Hr. destruct (pc st);
      try (rewrite Hr; simpl; lia).
    destruct Hr as (es' & e & -> & Hes' & _).
    rewrite finish_calls_app, Hes'. destruct e; simpl; lia. }
  split; [exact Hsteps|]. split; [|split; [exact Hparts|split; [exact Hfin|]]].
  - exists r, es. rewrite Hc. repeat split; try done.
    by eapply session_calls_length.
  - rewrite Hc in Hparts, Hfin |- *. simpl in *.
    rewrite (session_calls_length _ _ Hes). lia.
Qed.

Lemma Save_requests_bounded_example :
  exists st,
    Save_run (D := example_decoder) SharedLoopVar example_content "big.bin"
      sched_second_completes_first = Some st /\
    Z.of_nat (length (calls st)) <= 5.
Proof.
  eexists. split; [vm_compute; reflexivity|].
  destruct (Save_requests_bounded (D := example_decoder) SharedLoopVar
              example_content "big.bin" sched_second_completes_first _
              example_session
              ltac:(vm_compute; intuition discriminate)
              ltac:(vm_compute; reflexivity) ltac:(reflexivity)
              ltac:(reflexivity))
    as (_ & _ & _ & _ & Hcalls).
  exact Hcalls.
Defined.

Section Blocked.
Context {D : JSONDecoder} (lv : loopvar) (content : slice) (filename : string)
        (info : initResponse).
Hypothesis content_wf : slice_wf content.
Hypothesis BlkSize_pos : 0 < BlkSize info.

Lemma sending_not_done (gs : list goroutine) :
  (length (filter (fun g => goroutine_sending g = true) gs)
   <= length (filter (fun g => goroutine_done g = false) gs))%nat.
Proof.
  induction gs as [|g gs IH]; [done|].
  rewrite !filter_cons. destruct g; simpl; repeat case_decide; simpl; try done; lia.
Qed.

(** Two failed part uploads keep [Save] from leaving [wg.Wait()]. *)
Lemma blocked_step t r st st' :
  Inv lv content info st -> errors_ok st -> Save_inv st ->
  in_loop_or_Wait st ->
  (2 <= length (failed_parts (calls st)))%nat ->
  Save_step lv content filename t r st = Some st' ->
  in_loop_or_Wait st' /\ (2 <= length (failed_parts (calls st')))%nat.
Proof.
  intros HI He HS Hl Hf Hs.
  assert (Hwg : wg st <> 0).
  { unfold errors_ok, in_loop_or_Wait in *.
    pose proof (si_errChan _ HS) as Hc. unfold errChan_cap in Hc.
    pose proof (sending_not_done (goroutines st)).
    rewrite (inv_wg _ _ _ _ HI). destruct (pc st); try done; lia. }
  assert (Hpc : pc st <> M_entry).
  { unfold in_loop_or_Wait in Hl. by destruct (pc st). }
  split.
  - unfold Save_step in Hs. rewrite (inv_panicked _ _ _ _ HI) in Hs.
    unfold in_loop_or_Wait in *. destruct t as [|k].
    + unfold Save_step_main in Hs. destruct (pc st) eqn:Epc; try done.
      * destruct (loop_i st <? num st); by simplify_eq.
      * by simplify_eq.
      * destruct (initRes st); [|done].
        destruct (Z.eqb_spec (wg st) 0); done.
    + unfold Save_step_go in Hs.
      destruct (goroutines st !! k) as [g|]; [|done].
      destruct (initRes st); [|done].
      destruct g; simpl in Hs.
      * pose proof (inv_goroutines _ _ _ _ HI) as Hg.
        destruct (slice_range _ _ _) eqn:Er; simplify_eq; simpl; done.
      * destruct (uploadPart_response r) as [[? ?]|?]; by simplify_eq.
      * destruct (_ <? _)%nat; by simplify_eq.
      * by simplify_eq.
      * done.
  - destruct (Save_step_calls _ _ _ _ _ _ _ Hs Hpc)
      as (_ & _ & [->|[(? & ? & ? & _ & ->)|(? & ? & _ & ->)]]);
      rewrite ?failed_parts_app, ?length_app; lia.
Qed.

Lemma blocked_exec sched st st' :
  Inv lv content info st -> errors_ok st -> Save_inv st ->
  in_loop_or_Wait st ->
  (2 <= length (failed_parts (calls st)))%nat ->
  Save_exec lv content filename sched st = Some st' ->
  in_loop_or_Wait st' /\ (2 <= length (failed_parts (calls st')))%nat.
Proof.
  revert st. induction sched as [|[t r] sched IH]; intros st HI He HS Hl Hf; simpl.
  - by intros [= <-].
  - destruct (Save_step lv content filename t r st) as [st1|] eqn:Es; [|done].
    destruct (blocked_step _ _ _ _ HI He HS Hl Hf Es) as [Hl1 Hf1].
    apply IH; try done.
    + by eapply Inv_step.
    + by eapply errors_ok_step.
    + by eapply Save_inv_step.
Qed.
End Blocked.

(** In the multipart branch of [Save], for a session with a positive
    block size: once two uploads of full parts have failed (two part
    uploads have failed while [Save] is in its loop or at [wg.Wait()]),
    [Save] never returns, however the execution is carried on.  It stays
    in its loop or at [wg.Wait()], sends neither the remainder nor the
    finalization, and [wg] stays positive: there is a goroutine that has
    not run its [wg.Done()]. *)
Theorem Save_never_returns_after_two_failed_parts {D : JSONDecoder}
    (lv : loopvar) (content : slice) (filename : string)
    (sched sched' : list (tid * do_result)) (st st' : state)
    (info : initResponse) :
  slice_wf content ->
  Save_run lv content filename sched = Some st ->
  initRes st = Some info -> 0 < BlkSize info ->
  in_loop_or_Wait st ->
  (2 <= length (failed_parts (calls st)))%nat ->
  Save_run lv content filename (sched ++ sched') = Some st' ->
  in_loop_or_Wait st' /\ 0 < wg st' /\
  finish_calls (calls st') = [] /\
  Forall (fun p => p.1 <> remainder_part content (BlkSize info)
                                 (len content / BlkSize info))
         (part_calls (calls st')) /\
  Save lv content filename (sched ++ sched') = None.
Proof.
  intros Hwf Hrun Hi HB Hl Hf Hrun'.
  pose proof (Save_run_Inv _ _ _ _ _ _ Hwf Hrun Hi HB) as HI.
  pose proof (Save_run_errors_ok _ _ _ _ _ _ Hwf Hrun Hi HB) as He.
  pose proof (Save_run_inv _ _ _ _ _ Hrun) as HS.
  assert (Hex : Save_exec lv content filename sched' st = Some st').
  { unfold Save_run in *. rewrite Save_exec_app, Hrun in Hrun'. exact Hrun'. }
  destruct (blocked_exec _ _ _ _ Hwf HB _ _ _ HI He HS Hl Hf Hex) as [Hl' Hf'].
  pose proof (Inv_exec _ _ _ _ _ _ _ Hwf HB HI Hex) as HI'.
  pose proof (errors_ok_exec _ _ _ _ _ _ _ Hwf HB HI He Hex) as He'.
  pose proof (Save_inv_exec _ _ _ _ _ _ HS Hex) as HS'.
  split; [exact Hl'|]. split; [|split; [|split]].
  - unfold errors_ok, in_loop_or_Wait in *.
    pose proof (si_errChan _ HS') as Hc. unfold errChan_cap in Hc.
    pose proof (sending_not_done (goroutines st')).
    rewrite (inv_wg _ _ _ _ HI'). destruct (pc st'); try done; lia.
  - pose proof (si_return _ HS') as Hr. unfold in_loop_or_Wait in Hl'.
    by destruct (pc st').
  - destruct (inv_parts _ _ _ _ HI') as (fulls & rem & E1 & E2 & E3).
    assert (rem = []) as -> by (unfold in_loop_or_Wait in Hl'; by destruct (pc st')).
    rewrite app_nil_r in E1. rewrite E1. apply Forall_forall. intros p Hp Hrem.
    assert (Hin : p.1 ∈ fulls.*1) by (apply list_elem_of_fmap; eauto).
    rewrite E2 in Hin. apply list_elem_of_fmap in Hin as (g & Hg & Hgin).
    apply list_elem_of_filter in Hgin as [_ Hgin].
    apply list_elem_of_lookup_1 in Hgin as (k & Hk).
    destruct (inv_goroutines _ _ _ _ HI' _ _ Hk) as [Hj _].
    pose proof (lookup_lt_Some _ _ _ Hk) as Hlt.
    pose proof (inv_loop _ _ _ _ HI') as Hloop. unfold loop_ok in Hloop.
    pose proof (inv_num _ _ _ _ HI') as Hn.
    rewrite Hrem in Hg. apply (f_equal off) in Hg. simpl in Hg.
    unfold in_loop_or_Wait in Hl'. destruct (pc st'); try done; nia.
  - unfold Save. rewrite Hrun'. unfold in_loop_or_Wait in Hl'.
    by destruct (pc st').
Qed.

Lemma Save_never_returns_after_two_failed_parts_example :
  exists st',
    Save_run (D := example_decoder) SharedLoopVar example_content "big.bin"
      (sched_uploads_first rejected rejected ++ [(Go 0, no_request)])
    = Some st' /\
    in_loop_or_Wait st' /\ 0 < wg st' /\
    Save (D := example_decoder) SharedLoopVar example_content "big.bin"
      (sched_uploads_first rejected rejected ++ [(Go 0, no_request)]) = None.
Proof.
  eexists. split; [vm_compute; reflexivity|].
  destruct (Save_never_returns_after_two_failed_parts (D := example_decoder)
              SharedLoopVar example_content "big.bin"
              (sched_uploads_first rejected rejected) [(Go 0, no_request)]
              _ _ example_session
              ltac:(vm_compute; intuition discriminate)
              ltac:(vm_compute; reflexivity) ltac:(reflexivity)
              ltac:(reflexivity) I ltac:(vm_compute; lia)
              ltac:(vm_compute; reflexivity))
    as (Hl & Hw & _ & _ & Hs).
  split; [exact Hl|]. split; [exact Hw | exact Hs].
Defined.

(** ** A session with a negative block size *)

Section NegativeParts.
Context {D : JSONDecoder} (lv : loopvar) (content : slice) (filename : string)
        (info : initResponse).
Hypothesis content_wf : slice_wf content.
Hypothesis BlkSize_neg : BlkSize info < 0.

Local Abbreviation B := (BlkSize info).
Local Abbreviation n := (Z.quot (len content) (BlkSize info)).

Lemma neg_parts_step t r st st' :
  no_goroutines content info st -> neg_parts_ok content info st ->
  Save_step lv content filename t r st = Some st' ->
  neg_parts_ok content info st'.
Proof.
  intros (Hi & Hg & Hl & Hn & Hp & Hpc) Hok Hs.
  pose proof (quot_neg_bounds content info content_wf BlkSize_neg) as [Hq1 Hq2].
  simpl in Hq1, Hq2. destruct content_wf as (H0 & H1 & H2).
  unfold Save_step in Hs. rewrite Hp in Hs. destruct t as [|k].
  - unfold Save_step_main in Hs. unfold neg_parts_ok in *.
    destruct (pc st) eqn:Epc; try done.
    + destruct (loop_i st <? num st); simplify_eq; simpl; done.
    + rewrite Hi in Hs. destruct (wg st =? 0); [|done].
      assert (Em : int_mul (num st) B = num st * B).
      { unfold int_mul. apply int_wrap_id. unfold int_min, int_max in *.
        rewrite Hn. lia. }
      rewrite Em in Hs. unfold slice_from in Hs.
      replace ((0 <=? num st * B) && (num st * B <=? len content)) with true in Hs
        by (symmetry; rewrite andb_true_iff, !Z.leb_le, Hn; lia).
      destruct (_ <? _); simplify_eq; simpl; rewrite ?Epc; eauto.
      split; [done|]. unfold remainder_part. by rewrite Hn.
    + rewrite Hi in Hs. simpl in Hs. destruct Hok as [Hc ->].
      destruct (uploadPart_response r) as [[? ?]|?]; simplify_eq; simpl;
        right; rewrite part_calls_app, Hc, Hn; done.
    + rewrite Hi in Hs. simpl in Hs.
      destruct (finishMultipartUpload_response r); simplify_eq; simpl;
        rewrite part_calls_app, app_nil_r; done.
  - unfold Save_step_go in Hs. by rewrite Hg in Hs.
Qed.

Lemma neg_parts_exec sched st st' :
  no_goroutines content info st -> neg_parts_ok content info st ->
  Save_exec lv content filename sched st = Some st' ->
  neg_parts_ok content info st'.
Proof.
  revert st. induction sched as [|[t r] sched IH]; intros st HI Hok; simpl.
  - by intros [= <-].
  - destruct (Save_step lv content filename t r st) as [st1|] eqn:Es; [|done].
    apply IH; [by eapply no_goroutines_step | by eapply neg_parts_step].
Qed.
End NegativeParts.

(** [Save] does not check the block size of the session.  When it is
    negative, the quotient [num] is not positive and no goroutine is
    started; nothing panics; [Save] uploads at most one part, the bytes
    of the payload from offset [num * BlkSize] on, as part number [num]:
    the [num * BlkSize] bytes before that offset are in no part
    upload. *)
Theorem Save_negative_BlkSize {D : JSONDecoder} (lv : loopvar)
    (content : slice) (filename : string) (sched : list (tid * do_result))
    (st : state) (info : initResponse) :
  slice_wf content ->
  Save_run lv content filename sched = Some st ->
  initRes st = Some info -> BlkSize info < 0 ->
  let n := Z.quot (len content) (BlkSize info) in
  goroutines st = [] /\ panicked st = None /\
  - len content <= n <= 0 /\ 0 <= n * BlkSize info <= len content /\
  (part_calls (calls st) = [] \/
   part_calls (calls st) = [(remainder_part content (BlkSize info) n, n)]) /\
  (forall p k,
     In p (part_calls (calls st)) -> 0 <= k < n * BlkSize info ->
     ~ part_holds content p.1 k).
Proof.
  intros Hwf Hrun Hi HB n.
  pose proof (Save_run_BlkSize_neg lv content filename info Hwf HB _ _ Hrun Hi)
    as Hno.
  pose proof (quot_neg_bounds content info Hwf HB) as [Hq1 Hq2].
  simpl in Hq1, Hq2. fold n in Hq1, Hq2.
  assert (Hparts : part_calls (calls st) = [] \/
                   part_calls (calls st)
                   = [(remainder_part content (BlkSize info) n, n)]).
  { destruct (Save_run_enter _ _ _ _ _ _ Hrun Hi ltac:(lia))
      as (r & n' & sched' & -> & Hq & Hex).
    assert (Hn : n' = n).
    { unfold int_quo in Hq. destruct (Z.eqb_spec (BlkSize info) 0); [lia|].
      destruct Hwf as (? & ? & ?).
      rewrite int_wrap_id in Hq by (unfold int_min, int_max in *; lia).
      by simplify_eq. }
    subst n'.
    assert (Hok : neg_parts_ok content info st).
    { eapply neg_parts_exec; [done | done | | | exact Hex].
      - by repeat split.
      - reflexivity. }
    unfold neg_parts_ok in Hok. destruct Hno as (_ & _ & _ & _ & _ & Hpc).
    destruct (pc st); try done; try (by left). by destruct Hok as [-> _]; left. }
  destruct Hno as (_ & Hg & _ & Hn & Hp & Hpc).
  split; [exact Hg|]. split; [exact Hp|]. split; [exact Hq1|].
  split; [exact Hq2|]. split; [exact Hparts|].
  intros p k Hin Hk. destruct Hparts as [E|E]; rewrite E in Hin; [done|].
  destruct Hin as [<-|[]]. unfold part_holds. simpl. lia.
Qed.

Lemma Save_negative_BlkSize_example :
  exists st,
    Save_run (D := negative_decoder) SharedLoopVar example_content "big.bin"
      sched_negative = Some st /\
    pc st = M_return None /\
    (part_calls (calls st) = [] \/
     part_calls (calls st)
     = [(remainder_part example_content (-26214400) (-2), -2)]).
Proof.
  eexists. split; [vm_compute; reflexivity|]. split; [reflexivity|].
  destruct (Save_negative_BlkSize (D := negative_decoder) SharedLoopVar
              example_content "big.bin" sched_negative _ negative_session
              ltac:(vm_compute; intuition discriminate)
              ltac:(vm_compute; reflexivity) ltac:(reflexivity)
              ltac:(reflexivity))
    as (_ & _ & _ & _ & Hparts & _).
  exact Hparts.
Defined.

(** ** The configuration reader: [Get] and the typed getters *)

Section Split.
Variable sep : ascii.

Lemma append_String c (a b : string) : String c a +:+ b = String c (a +:+ b).
Proof. reflexivity. Qed.

Lemma Split_from_cons c s :
  rrconfig.Split_from sep (String c s)
  = let (piece, pieces) := rrconfig.Split_from sep s in
    if Ascii.eqb c sep then (EmptyString, piece :: pieces)
    else (String c piece, pieces).
Proof. reflexivity. Qed.

Lemma Split_cons c s :
  rrconfig.Split (String c s) sep
  = if Ascii.eqb c sep then EmptyString :: rrconfig.Split s sep
    else match rrconfig.Split s sep with
         | piece :: pieces => String c piece :: pieces
         | [] => []
         end.
Proof.
  unfold rrconfig.Split. rewrite Split_from_cons.
  destruct (rrconfig.Split_from sep s) as [piece pieces].
  by destruct (Ascii.eqb c sep).
Qed.

Lemma Split_not_nil s : rrconfig.Split s sep <> [].
Proof. unfold rrconfig.Split. by destruct (rrconfig.Split_from sep s). Qed.

Lemma Split_app a b :
  rrconfig.Split (a +:+ String sep b) sep
  = rrconfig.Split a sep ++ rrconfig.Split b sep.
Proof.
  induction a as [|c a IH].
  - change (EmptyString +:+ String sep b) with (String sep b).
    rewrite Split_cons, Ascii.eqb_refl. reflexivity.
  - rewrite append_String, !Split_cons, IH.
    destruct (Ascii.eqb c sep); [done|].
    pose proof (Split_not_nil a).
    by destruct (rrconfig.Split a sep).
Qed.

Lemma Split_components s :
  Forall (fun piece => rrconfig.has_byte sep piece = false) (rrconfig.Split s sep).
Proof.
  induction s as [|c s IH].
  - by repeat constructor.
  - rewrite Split_cons. destruct (Ascii.eqb c sep) eqn:E.
    + by constructor.
    + destruct (rrconfig.Split s sep) as [|piece pieces]; [done|].
      inversion IH as [|? ? Hp Hps]; subst. constructor; [|done].
      simpl. by rewrite E.
Qed.

Lemma Split_without_sep s :
  rrconfig.has_byte sep s = false -> rrconfig.Split s sep = [s].
Proof.
  induction s as [|c s IH]; [done|]. simpl.
  intros [Hc Hs]%orb_false_elim. rewrite Split_cons, Hc, (IH Hs). done.
Qed.

Lemma Join_Split s :
  Join (rrconfig.Split s sep) (String sep EmptyString) = s.
Proof.
  unfold Join. induction s as [|c s IH]; [done|].
  rewrite Split_cons. destruct (Ascii.eqb_spec c sep) as [->|Hne].
  - pose proof (Split_not_nil s).
    destruct (rrconfig.Split s sep) as [|piece pieces] eqn:E; [done|].
    change (String.concat (String sep EmptyString) (EmptyString :: piece :: pieces))
      with (String sep (String.concat (String sep EmptyString) (piece :: pieces))).
    by rewrite IH.
  - destruct (rrconfig.Split s sep) as [|piece pieces] eqn:E.
    { by destruct (Split_not_nil s). }
    destruct pieces as [|piece' pieces].
    + simpl in *. by rewrite IH.
    + change (String.concat (String sep EmptyString) (String c piece :: piece' :: pieces))
        with (String c (String.concat (String sep EmptyString) (piece :: piece' :: pieces))).
      by rewrite IH.
Qed.
End Split.



Lemma Get_loop_ok key cur nodes v :
  rrconfig.Get_loop key cur nodes = Ok v <->
  (exists pre node rest cur',
     nodes = pre ++ node :: rest /\ rrconfig.descend cur pre = Some cur' /\
     cur' !! node = Some v /\ rrconfig.is_Map v = false) \/
  (exists cur', rrconfig.descend cur nodes = Some cur' /\ v = rrconfig.Map cur').
Proof.
  revert cur. induction nodes as [|node nodes IH]; intros cur; simpl.
  - split.
    + intros [= <-]. right. by exists cur.
    + intros [(pre & node & rest & cur' & Hn & _)|(cur' & [= <-] & ->)]; [|done].
      by destruct pre.
  - destruct (cur !! node) as [w|] eqn:Ew.
    + destruct (rrconfig.is_Map w) eqn:Hw.
      * destruct w as [| | | | |vv]; try done. rewrite IH. split.
        -- intros [(pre & node' & rest & cur' & -> & Hd & Hl & Hm)|(cur' & Hd & ->)].
           ++ left. exists (node :: pre), node', rest, cur'. simpl. by rewrite Ew.
           ++ right. by exists cur'.
        -- intros [(pre & node' & rest & cur' & Hn & Hd & Hl & Hm)|(cur' & Hd & ->)].
           ++ destruct pre as [|p pre]; simpl in *; simplify_eq.
              rewrite Ew in Hd. left. by exists pre, node', rest, cur'.
           ++ right. by exists cur'.
      * assert (Hget : match w with
                       | rrconfig.Map vv => rrconfig.Get_loop key vv nodes
                       | _ => Ok w
                       end = Ok w) by (by destruct w).
        rewrite Hget. split.
        -- intros [= <-]. left. by exists [], node, nodes, cur.
        -- intros [(pre & node' & rest & cur' & Hn & Hd & Hl & Hm)|(cur' & Hd & ->)].
           ++ destruct pre as [|p pre]; simpl in *; simplify_eq; [congruence|].
              rewrite Ew in Hd. by destruct w.
           ++ by destruct w.
    + split; [done|].
      intros [(pre & node' & rest & cur' & Hn & Hd & Hl & Hm)|(cur' & Hd & ->)]; [|done].
      destruct pre as [|p pre]; simpl in *; simplify_eq. by rewrite Ew in Hd.
Qed.

Lemma Get_loop_other_key key key' cur nodes :
  rrconfig.Get_loop key' cur nodes
  = match rrconfig.Get_loop key cur nodes with
    | Ok v => Ok v
    | Err _ => Err (Errorf ("no value for key " +:+ key'))
    end.
Proof.
  revert cur. induction nodes as [|node nodes IH]; intros cur; simpl; [done|].
  by destruct (cur !! node) as [[| | | | |vv]|].
Qed.

(** [Get] splits the key at its dots: the components are not none, hold
    no dot, and joined by dots give the key back.  [Get] returns a value
    with a [nil] error in two cases only: the components before some
    component lead through objects to an object in which that component
    names a value that is not an object, which is the value returned
    (the components after it are not looked at); or all the components
    lead through objects, and the value returned is the object
    reached. *)
Theorem Get_result_exactly (s : rrconfig.JsonConfig) (key : string) :
  let nodes := rrconfig.Split key "."%char in
  nodes <> [] /\ Join nodes "." = key /\
  Forall (fun node => rrconfig.has_byte "."%char node = false) nodes /\
  forall v,
    rrconfig.Get s key = Ok v <->
    (exists pre node rest cur,
       nodes = pre ++ node :: rest /\
       rrconfig.descend (rrconfig.m s) pre = Some cur /\
       cur !! node = Some v /\ rrconfig.is_Map v = false) \/
    (exists cur,
       rrconfig.descend (rrconfig.m s) nodes = Some cur /\
       v = rrconfig.Map cur).
Proof.
  simpl. split; [apply Split_not_nil|]. split; [apply Join_Split|].
  split; [apply Split_components|]. intros v. apply Get_loop_ok.
Qed.

(** When [Get] of [k1] returns an object, [Get] of [k1.k2] is [Get] of
    [k2] in that object, but for the key named in the error. *)
Theorem Get_composes_along_dots (s : rrconfig.JsonConfig) (k1 k2 : string)
    (o : gmap string rrconfig.value) :
  rrconfig.Get s k1 = Ok (rrconfig.Map o) ->
  rrconfig.Get s (k1 +:+ "." +:+ k2)
  = match rrconfig.Get {| rrconfig.m := o; rrconfig.rb := rrconfig.rb s |} k2 with
    | Ok v => Ok v
    | Err _ => Err (Errorf ("no value for key " +:+ k1 +:+ "." +:+ k2))
    end.
Proof.
  intros Hget. apply Get_loop_ok in Hget
    as [(pre & node & rest & cur & _ & _ & _ & Hm)|(cur & Hd & [= <-])]; [done|].
  unfold rrconfig.Get at 1. simpl.
  change ("." +:+ k2) with (String "."%char k2).
  rewrite Split_app, (Get_loop_descend _ _ _ _ _ Hd).
  apply Get_loop_other_key.
Qed.

Lemma Get_composes_along_dots_example :
  rrconfig.Get example_config ("a" +:+ "." +:+ "b") = Ok (rrconfig.Str "text").
Proof.
  refine (eq_trans
            (Get_composes_along_dots example_config "a" "b"
               {[ "b" := rrconfig.Str "text" ]} _) _).
  - vm_compute. reflexivity.
  - vm_compute. reflexivity.
Defined.

(** [Get] never finds a member whose name holds a dot: two
    configurations that agree on the dot-free names of their top-level
    objects give the same result for every key. *)
Theorem Get_skips_names_with_dots (s1 s2 : rrconfig.JsonConfig) (key : string) :
  (forall name,
     rrconfig.has_byte "."%char name = false ->
     rrconfig.m s1 !! name = rrconfig.m s2 !! name) ->
  rrconfig.Get s1 key = rrconfig.Get s2 key.
Proof.
  intros Hagree. unfold rrconfig.Get.
  pose proof (Split_components "."%char key) as Hc.
  pose proof (Split_not_nil "."%char key) as Hne.
  destruct (rrconfig.Split key "."%char) as [|node nodes]; [done|].
  inversion Hc as [|? ? Hnode _]; subst. simpl.
  by rewrite (Hagree node Hnode).
Qed.

Lemma Get_skips_names_with_dots_example :
  rrconfig.Get example_dotted_config "a.b" = rrconfig.Get example_config "a.b".
Proof.
  apply (Get_skips_names_with_dots example_dotted_config example_config "a.b").
  intros name Hname. apply lookup_insert_ne. intros <-.
  vm_compute in Hname. discriminate.
Defined.

Lemma GetStringSlice_loop_strings key i (l : list string) (ss : list string) :
  length ss = (i + length l)%nat ->
  rrconfig.GetStringSlice_loop key i (rrconfig.Str <$> l) ss = (take i ss ++ l, None).
Proof.
  revert i ss. induction l as [|x l IH]; intros i ss Hlen; simpl in *.
  - rewrite app_nil_r, take_ge by lia. done.
  - rewrite IH by (rewrite length_insert; lia).
    rewrite (take_S_r _ _ x) by (apply list_lookup_insert_eq; lia).
    rewrite take_insert_ge by lia. by rewrite <- app_assoc.
Qed.

Lemma GetStringSlice_loop_non_string key i (pre : list string) v rest ss :
  (forall x, v <> rrconfig.Str x) ->
  rrconfig.GetStringSlice_loop key i ((rrconfig.Str <$> pre) ++ v :: rest) ss
  = ([], Some (Errorf (key +:+ "[" +:+ Itoa (Z.of_nat (i + length pre))
                       +:+ "] is not a string"))).
Proof.
  intros Hv. revert i ss. induction pre as [|x pre IH]; intros i ss; simpl.
  - rewrite Nat.add_0_r. destruct v; try done. by destruct (Hv s).
  - rewrite IH. by rewrite Nat.add_succ_r.
Qed.

Lemma strings_or_first_non_string (sf : list rrconfig.value) :
  (exists l, sf = rrconfig.Str <$> l) \/
  (exists pre v rest, sf = (rrconfig.Str <$> pre) ++ v :: rest /\ forall x, v <> rrconfig.Str x).
Proof.
  induction sf as [|v sf IH].
  - left. by exists [].
  - destruct v as [| | |x| |].
    4:{ destruct IH as [[l ->]|(pre & v & rest & -> & Hv)].
        - left. by exists (x :: l).
        - right. by exists (x :: pre), v, rest. }
    all: right; eexists [], _, sf; split; [reflexivity | done].
Qed.

(** [GetStringSlice] returns strings with a [nil] error if and only if
    [Get] returns a slice all of whose elements are strings, and then it
    returns these strings, in order, and [GetInterfaceSlice] returns the
    same elements.  For a slice with an element that is not a string it
    returns the error naming the index of the first such element.  With
    an error the slice returned is empty: no string of the slice is
    returned. *)
Theorem GetStringSlice_result (s : rrconfig.JsonConfig) (key : string) :
  (forall ss,
     rrconfig.GetStringSlice s key = (ss, None) <->
     rrconfig.Get s key = Ok (rrconfig.Slice (rrconfig.Str <$> ss))) /\
  (forall pre v rest,
     rrconfig.Get s key = Ok (rrconfig.Slice ((rrconfig.Str <$> pre) ++ v :: rest)) ->
     (forall x, v <> rrconfig.Str x) ->
     rrconfig.GetStringSlice s key
     = ([], Some (Errorf (key +:+ "[" +:+ Itoa (Z.of_nat (length pre))
                          +:+ "] is not a string")))) /\
  (forall ss err, rrconfig.GetStringSlice s key = (ss, Some err) -> ss = []) /\
  (forall ss,
     rrconfig.GetStringSlice s key = (ss, None) ->
     rrconfig.GetInterfaceSlice s key = (rrconfig.Str <$> ss, None)).
Proof.
  assert (Hok : forall ss, rrconfig.Get s key = Ok (rrconfig.Slice (rrconfig.Str <$> ss)) ->
                  rrconfig.GetStringSlice s key = (ss, None)).
  { intros ss Hget. unfold rrconfig.GetStringSlice. rewrite Hget.
    rewrite GetStringSlice_loop_strings by (by rewrite length_replicate, length_fmap). done. }
  assert (Hbad : forall pre v rest,
     rrconfig.Get s key = Ok (rrconfig.Slice ((rrconfig.Str <$> pre) ++ v :: rest)) ->
     (forall x, v <> rrconfig.Str x) ->
     rrconfig.GetStringSlice s key
     = ([], Some (Errorf (key +:+ "[" +:+ Itoa (Z.of_nat (length pre))
                          +:+ "] is not a string")))).
  { intros pre v rest Hget Hv. unfold rrconfig.GetStringSlice. rewrite Hget.
    by rewrite GetStringSlice_loop_non_string. }
  assert (Hinv : forall ss, rrconfig.GetStringSlice s key = (ss, None) ->
                   rrconfig.Get s key = Ok (rrconfig.Slice (rrconfig.Str <$> ss))).
  { intros ss Hss. destruct (rrconfig.Get s key) as [f|err] eqn:Hget;
      [|by unfold rrconfig.GetStringSlice in Hss; rewrite Hget in Hss].
    destruct f as [| | | |sf|];
      try (by unfold rrconfig.GetStringSlice in Hss; rewrite Hget in Hss).
    destruct (strings_or_first_non_string sf) as [[l ->]|(pre & v & rest & -> & Hv)].
    - rewrite (Hok l eq_refl) in Hss. by simplify_eq.
    - rewrite (Hbad pre v rest eq_refl Hv) in Hss. done. }
  split; [intros ss; split; [apply Hinv | apply Hok]|].
  split; [exact Hbad|]. split.
  - intros ss err Hss. unfold rrconfig.GetStringSlice in Hss.
    destruct (rrconfig.Get s key) as [f|e] eqn:Hget; [|by simplify_eq].
    destruct f as [| | | |sf|]; try (by simplify_eq).
    destruct (strings_or_first_non_string sf) as [[l ->]|(pre & v & rest & -> & Hv)].
    + rewrite GetStringSlice_loop_strings in Hss
        by (by rewrite length_replicate, length_fmap).
      done.
    + rewrite GetStringSlice_loop_non_string in Hss by done. by simplify_eq.
  - intros ss Hss. apply Hinv in Hss. unfold rrconfig.GetInterfaceSlice. by rewrite Hss.
Qed.

